(** * pr-watcher: the polling engine of [watcher.js]

    A shallow embedding of the issue normalisers, the CI aggregate, the
    merge-queue check and [pollForIssues] of [src/watcher.js], followed by
    the properties of the aggregation and notification engine.

    Conventions of the embedding.
    - A JSON field that may be [null] is an [option]; [None] is [null].
    - A platform call that may throw is an [option] of its payload; [None]
      is the exception, which every caller catches.
    - Strings are Rocq strings; [toLowerCase] and [trim] act on the ASCII
      range, which covers login names, job names and the configured
      patterns.
    - Console output is not part of the model; the three notification
      procedures are recorded as events, in call order. *)

From Stdlib Require Import Ascii.
From stdpp Require Import base option list strings pretty gmap.

(** ** JavaScript string and truthiness helpers *)

Module Js.

Definition lower_ascii (c : ascii) : ascii :=
  let n := nat_of_ascii c in
  if (65 <=? n)%nat && (n <=? 90)%nat then ascii_of_nat (n + 32) else c.

Fixpoint toLowerCase (s : string) : string :=
  match s with
  | EmptyString => EmptyString
  | String c s' => String (lower_ascii c) (toLowerCase s')
  end.

(** [startsWith s pat]: [pat] is a prefix of [s]. *)
Fixpoint startsWith (s pat : string) : bool :=
  match pat, s with
  | EmptyString, _ => true
  | String _ _, EmptyString => false
  | String p pat', String c s' => bool_decide (c = p) && startsWith s' pat'
  end.

(** [includes s pat]: [pat] occurs in [s] as a substring. *)
Fixpoint includes (s pat : string) : bool :=
  match s with
  | EmptyString => startsWith EmptyString pat
  | String _ s' => startsWith s pat || includes s' pat
  end.

Definition is_space (c : ascii) : bool :=
  let n := nat_of_ascii c in
  ((9 <=? n)%nat && (n <=? 13)%nat) || (n =? 32)%nat.

Fixpoint trimStart (s : string) : string :=
  match s with
  | EmptyString => EmptyString
  | String c s' => if is_space c then trimStart s' else s
  end.

Fixpoint trimEnd (s : string) : string :=
  match s with
  | EmptyString => EmptyString
  | String c s' =>
      match trimEnd s' with
      | EmptyString => if is_space c then EmptyString else String c EmptyString
      | t => String c t
      end
  end.

Definition trim (s : string) : string := trimEnd (trimStart s).

(** [split sep s]: the pieces of [s] between occurrences of [sep]. *)
Fixpoint split (sep : ascii) (s : string) : list string :=
  match s with
  | EmptyString => [EmptyString]
  | String c s' =>
      if bool_decide (c = sep) then EmptyString :: split sep s'
      else match split sep s' with
           | w :: ws => String c w :: ws
           | [] => [String c EmptyString]
           end
  end.

(** Truthiness of a nullable string: [null] and [""] are falsy. *)
Definition truthy (v : option string) : bool :=
  match v with
  | Some (String _ _) => true
  | _ => false
  end.

(** [a || b] on nullable strings. *)
Definition or_else (a b : option string) : option string :=
  if truthy a then a else b.

(** Truthiness of a nullable number: [null] and [0] are falsy. *)
Definition truthy_num (v : option Z) : bool :=
  match v with
  | Some z => negb (z =? 0)%Z
  | None => false
  end.

Definition or_else_num (a b : option Z) : option Z :=
  if truthy_num a then a else b.

(** Truthiness of a possibly absent boolean field. *)
Definition truthy_bool (v : option bool) : bool := default false v.

(** A number interpolated in a template literal: plain decimal digits,
    as JavaScript prints every integer it represents exactly (platform
    ids and pull-request numbers are far below [2^53]). *)
Definition show (z : Z) : string := pretty z.


(** [a || d] where [d] is a string literal. *)
Definition or_default (a : option string) (d : string) : string :=
  match a with
  | Some (String c s) => String c s
  | _ => d
  end.

(** [a?.toLowerCase()]: [undefined] when [a] is nullish. *)
Definition lower_opt (a : option string) : option string :=
  Js.toLowerCase <$> a.

Definition str_eqb (a b : string) : bool := bool_decide (a = b).

(** [a === lit] for a nullable string [a] and a string literal. *)
Definition is_lit (a : option string) (lit : string) : bool :=
  bool_decide (a = Some lit).

End Js.

(** ** Configuration constants *)

Definition REVIEW_BOTS : list string :=
  ["cursor"; "codex-connector"; "codex"].

Definition DEFAULT_NON_BLOCKING_CI : list string :=
  ["slack"; "notification"; "emoji"; "add reaction";
   "coverage"; "codecov"; "deque_notify"; "dequeue"].

(** ** Raw platform records *)

(** A comment node of a GraphQL review thread. *)
Record gql_comment := {
  gc_databaseId : Z;
  gc_body : option string;
  gc_url : option string;
  gc_author_login : option string;
  gc_createdAt : option string;
}.

(** A GraphQL review thread. *)
Record review_thread := {
  rt_isResolved : bool;
  rt_isOutdated : bool;
  rt_path : option string;
  rt_line : option Z;
  rt_comments : list gql_comment;
}.

(** A review comment of the REST listing. *)
Record rest_comment := {
  rc_id : Z;
  rc_user_login : option string;
  rc_position : option Z;
  rc_original_position : option Z;
  rc_path : option string;
  rc_line : option Z;
  rc_original_line : option Z;
  rc_body : option string;
  rc_html_url : option string;
  rc_created_at : option string;
}.

(** A top-level comment of the pull request. *)
Record issue_comment := {
  ic_id : Z;
  ic_user_login : option string;
  ic_body : option string;
  ic_html_url : option string;
}.

Record check_run := {
  run_id : Z;
  run_name : option string;
  run_status : string;
  run_conclusion : option string;
  run_html_url : option string;
  run_details_url : option string;
  run_app_name : option string;
  run_output_summary : option string;
  run_output_title : option string;
}.

Record commit_status := {
  cs_id : Z;
  cs_state : string;
  cs_context : option string;
  cs_description : option string;
  cs_target_url : option string;
}.

(** What [pulls.get] is read for: the merged flag (the head SHA only
    keys the two CI listings). *)
Record pull_request := {
  pr_merged : bool;
}.

Record queue_entry := {
  qe_position : Z;
  qe_state : string;
}.

(** ** Normalised issues *)

Inductive issue_type := review_bot | cursorbot | ci_failure.

Inductive bot_type := bt_codex | bt_cursorbot.

(** The object pushed by the normalisers; a key that a normaliser does
    not set is [None]. *)
Record issue := {
  i_id : string;
  i_type : issue_type;
  i_botType : option bot_type;
  i_name : option string;
  i_source : option string;
  i_conclusion : option string;
  i_path : option string;
  i_line : option Z;
  i_body : option string;
  i_url : option string;
  i_author : option string;
  i_createdAt : option string;
  i_output : option string;
  i_description : option string;
  i_resolved : option bool;
  i_outdated : option bool;
  i_nonBlocking : option bool;
}.

(** ** Notifications *)

Inductive queue_event := MERGED | REMOVED | QUEUED.

(** One constructor per notification procedure: [sendNotification],
    [sendReadyToMergeNotification], [sendMergeQueueNotification]. *)
Inductive event :=
| NewIssues (issues : list issue)
| ReadyToMerge
| QueueTransition (kind : queue_event) (message : string).

Section Watcher.

(** The [NON_BLOCKING_CI] environment variable, if set. *)
Variable NON_BLOCKING_CI : option string.

(** ** Blocking classifier *)

Definition getNonBlockingPatterns : list string :=
  DEFAULT_NON_BLOCKING_CI ++
  match NON_BLOCKING_CI with
  | Some (String c e) =>
      map (λ p, Js.toLowerCase (Js.trim p)) (Js.split "," (String c e))
  | _ => []
  end.

Definition isNonBlockingCI (jobName : option string) : bool :=
  match jobName with
  | Some (String c n) =>
      let lower := Js.toLowerCase (String c n) in
      existsb (λ pattern, Js.includes lower pattern) getNonBlockingPatterns
  | _ => false
  end.

Definition isReviewBot (username : option string) : bool :=
  match username with
  | Some (String c n) =>
      let lower := Js.toLowerCase (String c n) in
      existsb (λ bot, Js.includes lower bot) REVIEW_BOTS
  | _ => false
  end.

(** ** Review comments: GraphQL path and REST fallback *)

Definition botType_of (author : string) : bot_type :=
  if Js.includes (Js.toLowerCase author) "codex" then bt_codex else bt_cursorbot.

(** The object pushed for one bot comment of an unresolved thread. *)
Definition review_issue (thread : review_thread) (comment : gql_comment) : issue :=
  let author := Js.or_default (gc_author_login comment) "bot" in
  {| i_id := "review-" +:+ Js.show (gc_databaseId comment);
     i_type := review_bot;
     i_botType := Some (botType_of author);
     i_name := None;
     i_source := None;
     i_conclusion := None;
     i_path := rt_path thread;
     i_line := rt_line thread;
     i_body := gc_body comment;
     i_url := gc_url comment;
     i_author := Some author;
     i_createdAt := gc_createdAt comment;
     i_output := None;
     i_description := None;
     i_resolved := Some (rt_isResolved thread);
     i_outdated := Some (rt_isOutdated thread);
     i_nonBlocking := None |}.

Definition thread_issues (thread : review_thread) : list issue :=
  if rt_isResolved thread || rt_isOutdated thread then []
  else
    let botComments :=
      List.filter (λ c, isReviewBot (gc_author_login c)) (rt_comments thread) in
    map (review_issue thread) botComments.

Definition rest_isOutdated (comment : rest_comment) : bool :=
  bool_decide (rc_position comment = None)
  && negb (bool_decide (rc_original_position comment = None)).

Definition rest_issue (comment : rest_comment) : issue :=
  let author := Js.or_default (rc_user_login comment) "bot" in
  {| i_id := "review-" +:+ Js.show (rc_id comment);
     i_type := review_bot;
     i_botType := Some (botType_of author);
     i_name := None;
     i_source := None;
     i_conclusion := None;
     i_path := rc_path comment;
     i_line := Js.or_else_num (rc_line comment) (rc_original_line comment);
     i_body := rc_body comment;
     i_url := rc_html_url comment;
     i_author := Some author;
     i_createdAt := rc_created_at comment;
     i_output := None;
     i_description := None;
     i_resolved := None;
     i_outdated := None;
     i_nonBlocking := None |}.

Definition getCursorbotCommentsREST
    (reviewComments : option (list rest_comment)) : list issue :=
  match reviewComments with
  | Some cs =>
      let botComments := List.filter (λ c, isReviewBot (rc_user_login c)) cs in
      map rest_issue (List.filter (λ c, negb (rest_isOutdated c)) botComments)
  | None => []
  end.

Definition getCursorbotComments
    (threads : option (list review_thread))
    (reviewComments : option (list rest_comment)) : list issue :=
  match threads with
  | Some ts => flat_map thread_issues ts
  | None => getCursorbotCommentsREST reviewComments
  end.

(** ** General comments *)

Definition is_cursor_login (login : option string) : bool :=
  match login with
  | Some l => Js.includes (Js.toLowerCase l) "cursor"
  | None => false
  end.

Definition comment_issue (comment : issue_comment) : issue :=
  {| i_id := "issue-" +:+ Js.show (ic_id comment);
     i_type := cursorbot;
     i_botType := None;
     i_name := Some "PR Comment";
     i_source := None;
     i_conclusion := None;
     i_path := None;
     i_line := None;
     i_body := ic_body comment;
     i_url := ic_html_url comment;
     i_author := ic_user_login comment;
     i_createdAt := None;
     i_output := None;
     i_description := None;
     i_resolved := None;
     i_outdated := None;
     i_nonBlocking := None |}.

Definition getPRIssueComments
    (issueComments : option (list issue_comment)) : list issue :=
  match issueComments with
  | Some cs =>
      map comment_issue (List.filter (λ c, is_cursor_login (ic_user_login c)) cs)
  | None => []
  end.

(** ** CI failures: check runs, then commit statuses *)

Definition run_failed (run : check_run) : bool :=
  Js.is_lit (run_conclusion run) "failure"
  || Js.is_lit (run_conclusion run) "cancelled"
  || Js.is_lit (run_conclusion run) "timed_out".

Definition run_issue (run : check_run) : issue :=
  {| i_id := "ci-" +:+ Js.show (run_id run);
     i_type := ci_failure;
     i_botType := None;
     i_name := run_name run;
     i_source := Some (Js.or_default (run_app_name run) "CI");
     i_conclusion := run_conclusion run;
     i_path := None;
     i_line := None;
     i_body := None;
     i_url := Js.or_else (run_html_url run) (run_details_url run);
     i_author := None;
     i_createdAt := None;
     i_output := Js.or_else (run_output_summary run) (run_output_title run);
     i_description := None;
     i_resolved := None;
     i_outdated := None;
     i_nonBlocking := Some (isNonBlockingCI (run_name run)) |}.

Definition status_failed (status : commit_status) : bool :=
  Js.str_eqb (cs_state status) "failure"
  || Js.str_eqb (cs_state status) "error".

Definition status_issue (status : commit_status) : issue :=
  {| i_id := "status-" +:+ Js.show (cs_id status);
     i_type := ci_failure;
     i_botType := None;
     i_name := cs_context status;
     i_source :=
       Some (Js.or_default
               ((λ c, hd EmptyString (Js.split "/" c)) <$> cs_context status) "CI");
     i_conclusion := Some (cs_state status);
     i_path := None;
     i_line := None;
     i_body := None;
     i_url := cs_target_url status;
     i_author := None;
     i_createdAt := None;
     i_output := None;
     i_description := cs_description status;
     i_resolved := None;
     i_outdated := None;
     i_nonBlocking := Some (isNonBlockingCI (cs_context status)) |}.

(** [issues.some(i => i.url === status.target_url ||
     i.name?.toLowerCase() === status.context?.toLowerCase())] *)
Definition isDuplicate (issues : list issue) (status : commit_status) : bool :=
  existsb
    (λ i, bool_decide (i_url i = cs_target_url status)
          || bool_decide (Js.lower_opt (i_name i)
                          = Js.lower_opt (cs_context status)))
    issues.

(** One iteration of the loop over [statusData.statuses]. *)
Definition push_status (issues : list issue) (status : commit_status) : list issue :=
  if status_failed status then
    if isDuplicate issues status then issues else issues ++ [status_issue status]
  else issues.

Definition getCIFailures
    (pr : option pull_request)
    (checkRuns : option (list check_run))
    (statusData : option (list commit_status)) : list issue :=
  match pr with
  | None => []
  | Some _ =>
      match checkRuns with
      | None => []
      | Some runs =>
          let issues := map run_issue (List.filter run_failed runs) in
          match statusData with
          | None => issues
          | Some statuses => fold_left push_status statuses issues
          end
      end
  end.

(** ** The CI aggregate *)

Record ci_status := {
  allGreen : bool;
  pending : nat;
  passed : nat;
  failed : nat;
  nonBlockingFailed : nat;
  total : nat;
}.

Definition ci_status_init : ci_status :=
  {| allGreen := false; pending := 0; passed := 0; failed := 0;
     nonBlockingFailed := 0; total := 0 |}.

Definition run_passed (run : check_run) : bool :=
  Js.is_lit (run_conclusion run) "success"
  || Js.is_lit (run_conclusion run) "skipped"
  || Js.is_lit (run_conclusion run) "neutral".

Definition incr_total (r : ci_status) : ci_status :=
  {| allGreen := allGreen r; pending := pending r; passed := passed r;
     failed := failed r; nonBlockingFailed := nonBlockingFailed r;
     total := S (total r) |}.

Definition incr_pending (r : ci_status) : ci_status :=
  {| allGreen := allGreen r; pending := S (pending r); passed := passed r;
     failed := failed r; nonBlockingFailed := nonBlockingFailed r;
     total := total r |}.

Definition incr_passed (r : ci_status) : ci_status :=
  {| allGreen := allGreen r; pending := pending r; passed := S (passed r);
     failed := failed r; nonBlockingFailed := nonBlockingFailed r;
     total := total r |}.

Definition incr_failed (r : ci_status) : ci_status :=
  {| allGreen := allGreen r; pending := pending r; passed := passed r;
     failed := S (failed r); nonBlockingFailed := nonBlockingFailed r;
     total := total r |}.

Definition incr_nonBlockingFailed (r : ci_status) : ci_status :=
  {| allGreen := allGreen r; pending := pending r; passed := passed r;
     failed := failed r; nonBlockingFailed := S (nonBlockingFailed r);
     total := total r |}.

(** One iteration of the loop over [checkRuns.check_runs]. *)
Definition count_run (result : ci_status) (run : check_run) : ci_status :=
  let result := incr_total result in
  if negb (Js.str_eqb (run_status run) "completed") then incr_pending result
  else if run_passed run then incr_passed result
  else if isNonBlockingCI (run_name run) then incr_nonBlockingFailed result
  else incr_failed result.

(** One iteration of the loop over [statusData.statuses]. *)
Definition count_status (result : ci_status) (status : commit_status) : ci_status :=
  let result := incr_total result in
  if Js.str_eqb (cs_state status) "pending" then incr_pending result
  else if Js.str_eqb (cs_state status) "success" then incr_passed result
  else if isNonBlockingCI (cs_context status) then incr_nonBlockingFailed result
  else incr_failed result.

(** [result.allGreen = result.total > 0 && result.pending === 0 &&
     result.failed === 0] *)
Definition set_allGreen (result : ci_status) : ci_status :=
  {| allGreen := (0 <? total result) && (pending result =? 0) && (failed result =? 0);
     pending := pending result; passed := passed result; failed := failed result;
     nonBlockingFailed := nonBlockingFailed result; total := total result |}.

(** The three awaited calls are taken in order; an exception at any of
    them leaves [result] as it stands, with [allGreen] still [false]. *)
Definition checkCIStatus
    (pr : option pull_request)
    (checkRuns : option (list check_run))
    (statusData : option (list commit_status)) : ci_status :=
  let result := ci_status_init in
  match pr with
  | None => result
  | Some _ =>
      match checkRuns with
      | None => result
      | Some runs =>
          let result := fold_left count_run runs result in
          match statusData with
          | None => result
          | Some statuses =>
              set_allGreen (fold_left count_status statuses result)
          end
      end
  end.

(** ** Merge-queue status *)

(** [estimatedMergeTime] and the clock-dependent suffix it appends to
    [displayState] are left out: they feed the display only. *)
Record mq_status := {
  inQueue : bool;
  position : option Z;
  mq_state : option string;
  merged : bool;
  aheadCount : option Z;
  displayState : option string;
}.

Definition mq_status_init : mq_status :=
  {| inQueue := false; position := None; mq_state := None; merged := false;
     aheadCount := None; displayState := None |}.

Definition ahead_text (n : Z) : string :=
  Js.show n +:+ " PR" +:+ (if (1 <? n)%Z then "s" else "") +:+ " ahead".

Definition display_of (state : string) (ahead : Z) : string :=
  if Js.str_eqb state "MERGEABLE" then "Ready to merge (at front of queue)"
  else if Js.str_eqb state "AWAITING_CHECKS" then
    if (0 <? ahead)%Z then "Waiting (" +:+ ahead_text ahead +:+ ")"
    else "Running checks (at front of queue)"
  else if Js.str_eqb state "QUEUED" then
    if (0 <? ahead)%Z then "In queue (" +:+ ahead_text ahead +:+ ")"
    else "In queue (next up)"
  else if Js.str_eqb state "UNMERGEABLE" then
    if (0 <? ahead)%Z then "Waiting (" +:+ ahead_text ahead +:+ ")"
    else "Cannot merge (check for conflicts)"
  else if Js.str_eqb state "LOCKED" then "Queue is locked"
  else state.

(** [entry] is the GraphQL answer: [None] when the query throws,
    [Some None] when the pull request has no merge-queue entry. *)
Definition checkMergeQueueStatus
    (pr : option pull_request)
    (entry : option (option queue_entry)) : mq_status :=
  let result := mq_status_init in
  match pr with
  | None => result
  | Some p =>
      if pr_merged p then
        {| inQueue := false; position := None; mq_state := Some "MERGED";
           merged := true; aheadCount := None; displayState := Some "Merged!" |}
      else
        match entry with
        | Some (Some e) =>
            let ahead := if (qe_position e =? 0)%Z then 0%Z else qe_position e in
            {| inQueue := true;
               position := Some (qe_position e);
               mq_state := Some (qe_state e);
               merged := false;
               aheadCount := Some ahead;
               displayState := Some (display_of (qe_state e) ahead) |}
        | _ => result
        end
  end.

(** ** Watcher state and one poll *)

Record state := {
  seenIssueIds : gset string;
  previouslyHadBlockingIssues : bool;
  notifiedReadyToMerge : bool;
  lastMergeQueueState : option string;
}.

Definition initial_state : state :=
  {| seenIssueIds := ∅;
     previouslyHadBlockingIssues := false;
     notifiedReadyToMerge := false;
     lastMergeQueueState := None |}.

(** Everything the platform answers during one poll, one field per
    awaited call. *)
Record poll_input := {
  in_reviewThreads : option (list review_thread);
  in_reviewComments : option (list rest_comment);
  in_issueComments : option (list issue_comment);
  in_ci_pr : option pull_request;
  in_ci_checkRuns : option (list check_run);
  in_ci_statuses : option (list commit_status);
  in_mq_pr : option pull_request;
  in_mq_entry : option (option queue_entry);
  in_st_pr : option pull_request;
  in_st_checkRuns : option (list check_run);
  in_st_statuses : option (list commit_status);
}.

Record poll_result := {
  out_state : state;
  out_events : list event;
  out_allIssues : list issue;
  out_newIssues : list issue;
  out_ciStatus : ci_status;
  out_mergeQueueStatus : mq_status;
}.

(** [!i.nonBlocking] *)
Definition is_blocking (i : issue) : bool := negb (Js.truthy_bool (i_nonBlocking i)).

Definition unseen (seen : gset string) (i : issue) : bool :=
  negb (bool_decide (i_id i ∈ seen)).

Definition allIssues_of (inp : poll_input) : list issue :=
  getCursorbotComments (in_reviewThreads inp) (in_reviewComments inp)
  ++ getPRIssueComments (in_issueComments inp)
  ++ getCIFailures (in_ci_pr inp) (in_ci_checkRuns inp) (in_ci_statuses inp).

Definition currentQueueState_of (mq : mq_status) : option string :=
  if merged mq then Some "MERGED"
  else if inQueue mq then mq_state mq
  else None.

(** The merge-queue notification block. *)
Definition queue_events (last current : option string) (mq : mq_status) : list event :=
  if negb (bool_decide (last = current)) && negb (bool_decide (last = None)) then
    if Js.is_lit current "MERGED" then
      [QueueTransition MERGED "Your PR has been merged!"]
    else if Js.truthy last && negb (Js.truthy current) then
      [QueueTransition REMOVED "Check the PR - may need to re-queue"]
    else if negb (Js.truthy last) && Js.truthy current then
      let pos :=
        match position mq with
        | Some p => if negb (p =? 0)%Z then " Position: #" +:+ Js.show p else ""
        | None => ""
        end in
      [QueueTransition QUEUED ("Added to merge queue" +:+ pos)]
    else []
  else [].

Definition pollForIssues (st : state) (inp : poll_input) : poll_result :=
  let allIssues := allIssues_of inp in
  let newIssues := List.filter (unseen (seenIssueIds st)) allIssues in
  let mergeQueueStatus := checkMergeQueueStatus (in_mq_pr inp) (in_mq_entry inp) in
  let newBlockingIssues := List.filter is_blocking newIssues in
  let '(ev_new, notified) :=
    if (0 <? length newBlockingIssues)
    then ([NewIssues newBlockingIssues], false)
    else ([], notifiedReadyToMerge st) in
  let seen := seenIssueIds st ∪ list_to_set (map i_id allIssues) in
  let blockingIssues := List.filter is_blocking allIssues in
  let hasBlockingIssues := (0 <? length blockingIssues) in
  let ciStatus :=
    checkCIStatus (in_st_pr inp) (in_st_checkRuns inp) (in_st_statuses inp) in
  let currentQueueState := currentQueueState_of mergeQueueStatus in
  let ev_queue :=
    queue_events (lastMergeQueueState st) currentQueueState mergeQueueStatus in
  let '(ev_ready, notified) :=
    if negb hasBlockingIssues && allGreen ciStatus && negb notified
    then (if previouslyHadBlockingIssues st then [ReadyToMerge] else [], true)
    else ([], notified) in
  {| out_state :=
       {| seenIssueIds := seen;
          previouslyHadBlockingIssues := hasBlockingIssues;
          notifiedReadyToMerge := notified;
          lastMergeQueueState := currentQueueState |};
     out_events := ev_new ++ ev_queue ++ ev_ready;
     out_allIssues := allIssues;
     out_newIssues := newIssues;
     out_ciStatus := ciStatus;
     out_mergeQueueStatus := mergeQueueStatus |}.

(** The watcher loop over a finite run of polls: the result of each
    poll, in order. *)
Fixpoint run (st : state) (inputs : list poll_input) : list poll_result :=
  match inputs with
  | [] => []
  | inp :: rest =>
      let r := pollForIssues st inp in
      r :: run (out_state r) rest
  end.

Definition final_state (st : state) (inputs : list poll_input) : state :=
  fold_left (λ s inp, out_state (pollForIssues s inp)) inputs st.

(** ** Sample platform answers

    Concrete records used by the examples further down. *)

Definition ex_pr : pull_request := {| pr_merged := false |}.

Definition ex_run (id : Z) (name : string) (status : string)
    (conclusion : option string) (url : option string) : check_run :=
  {| run_id := id; run_name := Some name; run_status := status;
     run_conclusion := conclusion; run_html_url := url;
     run_details_url := None; run_app_name := None;
     run_output_summary := None; run_output_title := None |}.

Definition ex_status (id : Z) (state : string) (context : string)
    (url : option string) : commit_status :=
  {| cs_id := id; cs_state := state; cs_context := Some context;
     cs_description := None; cs_target_url := url |}.

Definition ex_lint_run : check_run :=
  ex_run 1 "lint" "completed" (Some "failure") (Some "https://ci.example/lint").

Definition ex_lint_status : commit_status :=
  ex_status 2 "failure" "lint" (Some "https://ci.example/lint").

Definition ex_unit_run_ok : check_run :=
  ex_run 3 "unit" "completed" (Some "success") (Some "https://ci.example/unit").

Definition ex_unit_run_pending : check_run :=
  ex_run 3 "unit" "in_progress" None (Some "https://ci.example/unit").

Definition ex_build_status : commit_status := ex_status 11 "failure" "build" None.

Definition ex_deploy_status : commit_status := ex_status 12 "error" "deploy" None.

(** An open review thread with one comment of the Cursor bot. *)
Definition ex_thread (resolved : bool) : review_thread :=
  {| rt_isResolved := resolved; rt_isOutdated := false;
     rt_path := Some "src/app.js"; rt_line := Some 10%Z;
     rt_comments :=
       [{| gc_databaseId := 501; gc_body := Some "Possible null dereference";
           gc_url := Some "https://git.example/pr/1#r501";
           gc_author_login := Some "cursor[bot]";
           gc_createdAt := Some "2025-01-01T00:00:00Z" |}] |}.

(** A poll in which every call succeeds. *)
Definition ex_poll (threads : list review_thread) (runs : list check_run)
    (statuses : list commit_status) (merged : bool)
    (entry : option queue_entry) : poll_input :=
  {| in_reviewThreads := Some threads;
     in_reviewComments := Some [];
     in_issueComments := Some [];
     in_ci_pr := Some {| pr_merged := merged |};
     in_ci_checkRuns := Some runs;
     in_ci_statuses := Some statuses;
     in_mq_pr := Some {| pr_merged := merged |};
     in_mq_entry := Some entry;
     in_st_pr := Some {| pr_merged := merged |};
     in_st_checkRuns := Some runs;
     in_st_statuses := Some statuses |}.

(** Blocking review comment open, lint failing. *)
Definition ex_poll_red : poll_input :=
  ex_poll [ex_thread false] [ex_lint_run] [] false None.

(** Thread resolved, the only check still running. *)
Definition ex_poll_pending : poll_input :=
  ex_poll [ex_thread true] [ex_unit_run_pending] [] false None.

(** Thread resolved, every check passed. *)
Definition ex_poll_green : poll_input :=
  ex_poll [ex_thread true] [ex_unit_run_ok] [] false None.

(** No issue, but a completed check that is neither passed nor one of
    the conclusions [getCIFailures] reports. *)
Definition ex_poll_action_required : poll_input :=
  ex_poll []
    [ex_run 4 "deploy" "completed" (Some "action_required")
       (Some "https://ci.example/deploy")]
    [] false None.

(** A bot comment as the REST listing returns it. *)
Definition ex_rest_comment : rest_comment :=
  {| rc_id := 501; rc_user_login := Some "cursor[bot]";
     rc_position := Some 4%Z; rc_original_position := Some 4%Z;
     rc_path := Some "src/app.js"; rc_line := Some 10%Z;
     rc_original_line := Some 10%Z;
     rc_body := Some "Possible null dereference";
     rc_html_url := Some "https://git.example/pr/1#r501";
     rc_created_at := Some "2025-01-01T00:00:00Z" |}.

Definition ex_entry (state : string) (position : Z) : option queue_entry :=
  Some {| qe_position := position; qe_state := state |}.

(** The four polls of the merge-queue scenario. *)
Definition ex_queue_trace : list poll_input :=
  [ ex_poll [] [ex_unit_run_ok] [] false (ex_entry "AWAITING_CHECKS" 2);
    ex_poll [] [ex_unit_run_ok] [] false (ex_entry "AWAITING_CHECKS" 0);
    ex_poll [] [ex_unit_run_ok] [] false (ex_entry "MERGEABLE" 0);
    ex_poll [] [ex_unit_run_ok] [] true None ].

(** ** The CI aggregate *)

Definition tallies (r : ci_status) : nat :=
  pending r + passed r + failed r + nonBlockingFailed r.

Lemma count_run_total r run : total (count_run r run) = S (total r).
Proof. unfold count_run. repeat case_match; reflexivity. Qed.

Lemma count_status_total r s : total (count_status r s) = S (total r).
Proof. unfold count_status. repeat case_match; reflexivity. Qed.

Lemma count_run_tallies r run : tallies (count_run r run) = S (tallies r).
Proof. unfold count_run, tallies. repeat case_match; simpl; lia. Qed.

Lemma count_status_tallies r s : tallies (count_status r s) = S (tallies r).
Proof. unfold count_status, tallies. repeat case_match; simpl; lia. Qed.

Lemma count_run_allGreen r run : allGreen (count_run r run) = allGreen r.
Proof. unfold count_run. repeat case_match; reflexivity. Qed.

Lemma count_status_allGreen r s : allGreen (count_status r s) = allGreen r.
Proof. unfold count_status. repeat case_match; reflexivity. Qed.

Lemma fold_count_run_total runs : ∀ r,
  total (fold_left count_run runs r) = total r + length runs.
Proof.
  induction runs as [|run runs IH]; intros r; simpl; [lia|].
  rewrite IH, count_run_total. lia.
Qed.

Lemma fold_count_status_total statuses : ∀ r,
  total (fold_left count_status statuses r) = total r + length statuses.
Proof.
  induction statuses as [|s statuses IH]; intros r; simpl; [lia|].
  rewrite IH, count_status_total. lia.
Qed.

Lemma fold_count_run_tallies runs : ∀ r,
  tallies (fold_left count_run runs r) = tallies r + length runs.
Proof.
  induction runs as [|run runs IH]; intros r; simpl; [lia|].
  rewrite IH, count_run_tallies. lia.
Qed.

Lemma fold_count_status_tallies statuses : ∀ r,
  tallies (fold_left count_status statuses r) = tallies r + length statuses.
Proof.
  induction statuses as [|s statuses IH]; intros r; simpl; [lia|].
  rewrite IH, count_status_tallies. lia.
Qed.

Lemma fold_count_run_allGreen runs : ∀ r,
  allGreen (fold_left count_run runs r) = allGreen r.
Proof.
  induction runs as [|run runs IH]; intros r; simpl; [done|].
  by rewrite IH, count_run_allGreen.
Qed.

Lemma set_allGreen_spec r :
  allGreen (set_allGreen r) = true ↔ 0 < total r ∧ pending r = 0 ∧ failed r = 0.
Proof.
  unfold set_allGreen; simpl.
  rewrite !andb_true_iff, Nat.ltb_lt, !Nat.eqb_eq. tauto.
Qed.

Lemma set_allGreen_fields r :
  total (set_allGreen r) = total r ∧ pending (set_allGreen r) = pending r
  ∧ passed (set_allGreen r) = passed r ∧ failed (set_allGreen r) = failed r
  ∧ nonBlockingFailed (set_allGreen r) = nonBlockingFailed r.
Proof. by destruct r. Qed.

(** [allGreen] implies the three conditions on every path, also on one
    cut short by an exception. *)
Lemma checkCIStatus_allGreen_sound pr runs statuses :
  let s := checkCIStatus pr runs statuses in
  allGreen s = true → 0 < total s ∧ pending s = 0 ∧ failed s = 0.
Proof.
  unfold checkCIStatus.
  destruct pr as [p|]; [|discriminate].
  destruct runs as [rs|]; [|discriminate].
  destruct statuses as [ss|]; simpl.
  - rewrite !andb_true_iff, Nat.ltb_lt, !Nat.eqb_eq. tauto.
  - rewrite fold_count_run_allGreen. discriminate.
Qed.

(** An exception at any of the three calls leaves [allGreen] false. *)
Lemma checkCIStatus_failed_fetch pr runs statuses :
  pr = None ∨ runs = None ∨ statuses = None →
  allGreen (checkCIStatus pr runs statuses) = false.
Proof.
  unfold checkCIStatus.
  destruct pr; [|done]. destruct runs; [|done]. destruct statuses.
  - intros [?|[?|?]]; discriminate.
  - intros _. by rewrite fold_count_run_allGreen.
Qed.

Lemma checkCIStatus_ok_fields pr runs statuses :
  let s := checkCIStatus (Some pr) (Some runs) (Some statuses) in
  let r := fold_left count_status statuses (fold_left count_run runs ci_status_init) in
  allGreen s = ((0 <? total r) && (pending r =? 0) && (failed r =? 0))
  ∧ total s = total r ∧ pending s = pending r ∧ failed s = failed r
  ∧ tallies s = tallies r.
Proof. done. Qed.

(** C4 (as amended): when the three calls of [checkCIStatus] succeed,
    [allGreen] holds iff [total > 0], [pending = 0] and no blocking
    failure was counted; on every path, also one cut short by an
    exception, a blocking failure or a pending check forces [allGreen]
    to be false; and two complete snapshots that agree on [total],
    [pending] and [failed] agree on [allGreen], whatever their counts of
    non-blocking failures. *)
Theorem C4_allGreen_characterisation :
  (∀ pr runs statuses,
     let s := checkCIStatus (Some pr) (Some runs) (Some statuses) in
     allGreen s = true ↔ 0 < total s ∧ pending s = 0 ∧ failed s = 0)
  ∧ (∀ pr runs statuses,
       let s := checkCIStatus pr runs statuses in
       0 < failed s ∨ 0 < pending s → allGreen s = false)
  ∧ (∀ pr runs statuses pr' runs' statuses',
       let s := checkCIStatus (Some pr) (Some runs) (Some statuses) in
       let s' := checkCIStatus (Some pr') (Some runs') (Some statuses') in
       total s = total s' → pending s = pending s' → failed s = failed s' →
       allGreen s = allGreen s').
Proof.
  split; [|split].
  - intros pr runs statuses s.
    destruct (checkCIStatus_ok_fields pr runs statuses) as (Hg & Ht & Hp & Hf & _).
    fold s in Hg, Ht, Hp, Hf. rewrite Hg, Ht, Hp, Hf.
    rewrite !andb_true_iff, Nat.ltb_lt, !Nat.eqb_eq. tauto.
  - intros pr runs statuses s Hbad.
    destruct (allGreen s) eqn:Hg; [|done].
    apply checkCIStatus_allGreen_sound in Hg. fold s in Hg. lia.
  - intros pr runs statuses pr' runs' statuses' s s' Ht Hp Hf.
    destruct (checkCIStatus_ok_fields pr runs statuses) as (Hg & Ht1 & Hp1 & Hf1 & _).
    destruct (checkCIStatus_ok_fields pr' runs' statuses') as (Hg' & Ht2 & Hp2 & Hf2 & _).
    fold s in Hg, Ht1, Hp1, Hf1. fold s' in Hg', Ht2, Hp2, Hf2.
    rewrite Hg, Hg', <- Ht1, <- Hp1, <- Hf1, <- Ht2, <- Hp2, <- Hf2, Ht, Hp, Hf.
    reflexivity.
Qed.

Lemma getCIFailures_pair run status :
  run_failed run = true → status_failed status = true →
  i_url (run_issue run) = cs_target_url status
  ∨ Js.lower_opt (run_name run) = Js.lower_opt (cs_context status) →
  ∀ pr, getCIFailures (Some pr) (Some [run]) (Some [status]) = [run_issue run].
Proof.
  intros Hr Hs Hn pr. unfold getCIFailures. simpl. rewrite Hr. simpl.
  unfold push_status. rewrite Hs. unfold isDuplicate.
  cbn [existsb]. rewrite orb_false_r.
  destruct Hn as [Hn|Hn].
  - by rewrite (bool_decide_eq_true_2 _ Hn).
  - change (i_name (run_issue run)) with (run_name run).
    by rewrite (bool_decide_eq_true_2 _ Hn), orb_true_r.
Qed.

(** C10: in a snapshot computed with all three calls succeeding, [total]
    is the number of check runs plus the number of commit statuses, and
    every report lands in exactly one of the four tallies; a failing
    check run and a failing commit status that the issue list merges
    into one issue (same name up to case) still count as two in
    [total] and in the tallies. *)
Theorem C10_total_counts_every_report pr runs statuses :
  let s := checkCIStatus (Some pr) (Some runs) (Some statuses) in
  total s = length runs + length statuses
  ∧ pending s + passed s + failed s + nonBlockingFailed s = total s
  ∧ (∀ run status,
       run_failed run = true → status_failed status = true →
       Js.lower_opt (run_name run) = Js.lower_opt (cs_context status) →
       let d := checkCIStatus (Some pr) (Some [run]) (Some [status]) in
       length (getCIFailures (Some pr) (Some [run]) (Some [status])) = 1
       ∧ total d = 2
       ∧ pending d + passed d + failed d + nonBlockingFailed d = 2).
Proof.
  assert (Hgen : ∀ rs ss,
    let s := checkCIStatus (Some pr) (Some rs) (Some ss) in
    total s = length rs + length ss ∧ tallies s = total s).
  { intros rs ss s0.
    destruct (checkCIStatus_ok_fields pr rs ss) as (_ & Ht & _ & _ & Hl).
    fold s0 in Ht, Hl. rewrite Hl, Ht.
    rewrite fold_count_status_tallies, fold_count_status_total.
    rewrite fold_count_run_tallies, fold_count_run_total.
    unfold tallies; simpl. lia. }
  intros s. destruct (Hgen runs statuses) as [Ht Hl]. fold s in Ht, Hl.
  split; [exact Ht|]. split; [exact Hl|].
  intros run status Hr Hs Hn. cbv zeta.
  rewrite (getCIFailures_pair run status Hr Hs (or_intror Hn)).
  destruct (Hgen [run] [status]) as [Ht' Hl']. cbv zeta in Ht', Hl'.
  unfold tallies in Hl'. simpl length in Ht' |- *.
  split; [reflexivity|]. split; [exact Ht'|]. rewrite Hl'. exact Ht'.
Qed.

(** ** Where the issues of a poll come from *)

Lemma thread_issues_In t i :
  In i (thread_issues t) →
  rt_isResolved t = false ∧ rt_isOutdated t = false
  ∧ ∃ c, In c (rt_comments t) ∧ i = review_issue t c.
Proof.
  unfold thread_issues.
  destruct (rt_isResolved t) eqn:Hr; [intros []|].
  destruct (rt_isOutdated t) eqn:Ho; [intros []|].
  simpl. intros Hi. apply in_map_iff in Hi as (c & <- & Hc).
  apply filter_In in Hc as [Hc _].
  split; [done|]. split; [done|]. exists c. split; [done|].
  unfold review_issue. by rewrite Hr, Ho.
Qed.

Lemma getCursorbotComments_graphql_In ts rest i :
  In i (getCursorbotComments (Some ts) rest) →
  ∃ t c, In t ts ∧ In c (rt_comments t)
         ∧ rt_isResolved t = false ∧ rt_isOutdated t = false
         ∧ i = review_issue t c.
Proof.
  simpl. intros Hi. apply in_flat_map in Hi as (t & Ht & Hi).
  apply thread_issues_In in Hi as (Hr & Ho & c & Hc & ->).
  by exists t, c.
Qed.

Lemma getCursorbotCommentsREST_In cs i :
  In i (getCursorbotCommentsREST (Some cs)) →
  ∃ c, In c cs
       ∧ ¬ (rc_position c = None ∧ rc_original_position c ≠ None)
       ∧ i = rest_issue c.
Proof.
  simpl. intros Hi. apply in_map_iff in Hi as (c & <- & Hc).
  apply filter_In in Hc as [Hc Hout]. apply filter_In in Hc as [Hc _].
  exists c. split; [done|]. split; [|done].
  intros [Hp Ho]. unfold rest_isOutdated in Hout.
  rewrite (bool_decide_eq_true_2 _ Hp) in Hout.
  rewrite (bool_decide_eq_false_2 _ Ho) in Hout. discriminate.
Qed.

Lemma getPRIssueComments_In cs i :
  In i (getPRIssueComments cs) →
  ∃ c, i = comment_issue c.
Proof.
  destruct cs as [cs|]; [|intros []]. simpl.
  intros Hi. apply in_map_iff in Hi as (c & <- & _). by exists c.
Qed.

Lemma fold_push_status_In statuses : ∀ issues i,
  In i (fold_left push_status statuses issues) →
  In i issues ∨ ∃ s, In s statuses ∧ status_failed s = true ∧ i = status_issue s.
Proof.
  induction statuses as [|s statuses IH]; intros issues i; simpl; [by left|].
  intros Hi. apply IH in Hi as [Hi|(s' & Hs' & Hf & ->)].
  - unfold push_status in Hi.
    destruct (status_failed s) eqn:Hf; [|by left].
    destruct (isDuplicate issues s); [by left|].
    apply in_app_or in Hi as [Hi|[<-|[]]]; [by left|].
    right. exists s. auto.
  - right. exists s'. auto.
Qed.

Lemma fold_push_status_prefix statuses : ∀ issues,
  ∃ added, fold_left push_status statuses issues = issues ++ added.
Proof.
  induction statuses as [|s statuses IH]; intros issues; simpl.
  - exists []. by rewrite app_nil_r.
  - destruct (IH (push_status issues s)) as [added ->].
    unfold push_status.
    destruct (status_failed s); [|by exists added].
    destruct (isDuplicate issues s); [by exists added|].
    exists (status_issue s :: added). by rewrite <- app_assoc.
Qed.

Lemma getCIFailures_In pr runs statuses i :
  In i (getCIFailures pr runs statuses) →
  (∃ run, i = run_issue run) ∨ (∃ s, i = status_issue s).
Proof.
  unfold getCIFailures.
  destruct pr; [|intros []]. destruct runs as [rs|]; [|intros []].
  assert (Hruns : In i (map run_issue (List.filter run_failed rs)) →
                  ∃ run, i = run_issue run).
  { intros Hi. apply in_map_iff in Hi as (run & <- & _). by exists run. }
  destruct statuses as [ss|]; [|by left; auto].
  intros Hi. apply fold_push_status_In in Hi as [Hi|(s & _ & _ & ->)].
  - left; auto.
  - right. by exists s.
Qed.

(** The origin of every issue of a poll. *)
Inductive issue_origin (i : issue) : Prop :=
| from_thread t c : i = review_issue t c → issue_origin i
| from_rest c : i = rest_issue c → issue_origin i
| from_comment c : i = comment_issue c → issue_origin i
| from_run run : i = run_issue run → issue_origin i
| from_status s : i = status_issue s → issue_origin i.

Lemma allIssues_origin inp i :
  In i (allIssues_of inp) →
  issue_origin i
  ∧ (i_resolved i ≠ Some true ∧ i_outdated i ≠ Some true).
Proof.
  unfold allIssues_of. intros Hi.
  apply in_app_or in Hi as [Hi|Hi]; [|apply in_app_or in Hi as [Hi|Hi]].
  - destruct (in_reviewThreads inp) as [ts|].
    + apply getCursorbotComments_graphql_In in Hi as (t & c & _ & _ & Hr & Ho & ->).
      split; [by eapply from_thread|]. simpl. rewrite Hr, Ho. by split.
    + simpl in Hi. destruct (in_reviewComments inp) as [cs|]; [|destruct Hi].
      apply getCursorbotCommentsREST_In in Hi as (c & _ & _ & ->).
      split; [by eapply from_rest|]. by split.
  - apply getPRIssueComments_In in Hi as (c & ->).
    split; [by eapply from_comment|]. by split.
  - apply getCIFailures_In in Hi as [(run & ->)|(s & ->)].
    + split; [by eapply from_run|]. by split.
    + split; [by eapply from_status|]. by split.
Qed.

(** ** The parts of one poll *)

Definition newBlockingIssues_of (st : state) (inp : poll_input) : list issue :=
  List.filter is_blocking
    (List.filter (unseen (seenIssueIds st)) (allIssues_of inp)).

Definition hasBlockingIssues_of (inp : poll_input) : bool :=
  0 <? length (List.filter is_blocking (allIssues_of inp)).

Definition ciStatus_of (inp : poll_input) : ci_status :=
  checkCIStatus (in_st_pr inp) (in_st_checkRuns inp) (in_st_statuses inp).

Definition mergeQueueStatus_of (inp : poll_input) : mq_status :=
  checkMergeQueueStatus (in_mq_pr inp) (in_mq_entry inp).

(** [notifiedReadyToMerge] as the ready check reads it. *)
Definition notified_at_check (st : state) (inp : poll_input) : bool :=
  if 0 <? length (newBlockingIssues_of st inp) then false
  else notifiedReadyToMerge st.

Definition ready_guard (st : state) (inp : poll_input) : bool :=
  negb (hasBlockingIssues_of inp) && allGreen (ciStatus_of inp)
  && negb (notified_at_check st inp).

Definition new_events (st : state) (inp : poll_input) : list event :=
  if 0 <? length (newBlockingIssues_of st inp)
  then [NewIssues (newBlockingIssues_of st inp)] else [].

Definition ready_events (st : state) (inp : poll_input) : list event :=
  if ready_guard st inp && previouslyHadBlockingIssues st
  then [ReadyToMerge] else [].

Lemma pollForIssues_unfold st inp :
  pollForIssues st inp =
  {| out_state :=
       {| seenIssueIds :=
            seenIssueIds st ∪ list_to_set (map i_id (allIssues_of inp));
          previouslyHadBlockingIssues := hasBlockingIssues_of inp;
          notifiedReadyToMerge :=
            if ready_guard st inp then true else notified_at_check st inp;
          lastMergeQueueState := currentQueueState_of (mergeQueueStatus_of inp) |};
     out_events :=
       new_events st inp
       ++ queue_events (lastMergeQueueState st)
            (currentQueueState_of (mergeQueueStatus_of inp))
            (mergeQueueStatus_of inp)
       ++ ready_events st inp;
     out_allIssues := allIssues_of inp;
     out_newIssues := List.filter (unseen (seenIssueIds st)) (allIssues_of inp);
     out_ciStatus := ciStatus_of inp;
     out_mergeQueueStatus := mergeQueueStatus_of inp |}.
Proof.
  unfold pollForIssues, new_events, ready_events, ready_guard, notified_at_check,
    newBlockingIssues_of, hasBlockingIssues_of, ciStatus_of, mergeQueueStatus_of.
  destruct (0 <? length (List.filter is_blocking
              (List.filter (unseen (seenIssueIds st)) (allIssues_of inp))));
    destruct (0 <? length (List.filter is_blocking (allIssues_of inp)));
    destruct (allGreen (checkCIStatus (in_st_pr inp) (in_st_checkRuns inp)
                          (in_st_statuses inp)));
    destruct (notifiedReadyToMerge st);
    destruct (previouslyHadBlockingIssues st); reflexivity.
Qed.

Lemma filter_nonempty_weaken {A} (f g : A → bool) (l : list A) :
  (0 <? length (List.filter f (List.filter g l))) = true →
  (0 <? length (List.filter f l)) = true.
Proof.
  rewrite !Nat.ltb_lt. intros H.
  destruct (List.filter f (List.filter g l)) as [|x xs] eqn:E; [simpl in H; lia|].
  assert (Hx : In x (List.filter f (List.filter g l))) by (rewrite E; by left).
  apply filter_In in Hx as [Hx Hf]. apply filter_In in Hx as [Hx _].
  assert (Hin : In x (List.filter f l)) by (apply filter_In; auto).
  destruct (List.filter f l); [destruct Hin|simpl; lia].
Qed.

(** New blocking issues are blocking issues: the two rules exclude
    each other within a poll. *)
Lemma new_blocking_blocks_ready st inp :
  (0 <? length (newBlockingIssues_of st inp)) = true →
  hasBlockingIssues_of inp = true ∧ ready_guard st inp = false.
Proof.
  intros H. apply filter_nonempty_weaken in H.
  unfold ready_guard, hasBlockingIssues_of. by rewrite H.
Qed.

Lemma queue_events_kind last current mq e :
  In e (queue_events last current mq) → ∃ k m, e = QueueTransition k m.
Proof.
  unfold queue_events. repeat case_match; simpl; intros Hin;
    repeat (destruct Hin as [<-|Hin]; [eauto|]); destruct Hin.
Qed.

Lemma In_ready_events st inp e :
  In e (ready_events st inp) ↔
  e = ReadyToMerge ∧ ready_guard st inp = true
  ∧ previouslyHadBlockingIssues st = true.
Proof.
  unfold ready_events.
  destruct (ready_guard st inp), (previouslyHadBlockingIssues st); simpl;
    intuition congruence.
Qed.

Lemma In_new_events st inp e :
  In e (new_events st inp) ↔
  e = NewIssues (newBlockingIssues_of st inp)
  ∧ (0 <? length (newBlockingIssues_of st inp)) = true.
Proof.
  unfold new_events.
  destruct (0 <? length (newBlockingIssues_of st inp)); simpl;
    intuition congruence.
Qed.

Lemma ready_fires_iff st inp :
  In ReadyToMerge (out_events (pollForIssues st inp)) ↔
  ready_guard st inp = true ∧ previouslyHadBlockingIssues st = true.
Proof.
  rewrite pollForIssues_unfold. simpl. rewrite !in_app_iff. split.
  - intros [H|[H|H]].
    + apply In_new_events in H as [? _]. discriminate.
    + apply queue_events_kind in H as (k & m & ?). discriminate.
    + by apply In_ready_events in H as (_ & ? & ?).
  - intros [Hg Hp]. right; right. by apply In_ready_events.
Qed.

(** C6: in every poll, on the GraphQL path as on the REST fallback, no
    issue of the active list has [resolved = true] or [outdated = true];
    on the GraphQL path every review issue comes from a comment of a
    thread that is neither resolved nor outdated, and on the fallback
    from a comment that does not have a null position next to a
    non-null original position. *)
Theorem C6_active_issues_not_resolved_nor_outdated st inp :
  let r := pollForIssues st inp in
  (∀ i, In i (out_allIssues r) →
        i_resolved i ≠ Some true ∧ i_outdated i ≠ Some true)
  ∧ (∀ ts i,
       in_reviewThreads inp = Some ts →
       In i (getCursorbotComments (in_reviewThreads inp) (in_reviewComments inp)) →
       ∃ t c, In t ts ∧ In c (rt_comments t)
              ∧ rt_isResolved t = false ∧ rt_isOutdated t = false
              ∧ i = review_issue t c)
  ∧ (∀ cs i,
       in_reviewThreads inp = None → in_reviewComments inp = Some cs →
       In i (getCursorbotComments (in_reviewThreads inp) (in_reviewComments inp)) →
       ∃ c, In c cs
            ∧ ¬ (rc_position c = None ∧ rc_original_position c ≠ None)
            ∧ i = rest_issue c).
Proof.
  split; [|split].
  - intros i Hi. rewrite pollForIssues_unfold in Hi. simpl in Hi.
    by apply allIssues_origin in Hi as [_ ?].
  - intros ts i -> Hi. by apply getCursorbotComments_graphql_In in Hi.
  - intros cs i -> -> Hi. by apply getCursorbotCommentsREST_In in Hi.
Qed.

(** ** Issue identity *)

Lemma prefixed_show_inj (prefix : string) (a b : Z) :
  prefix +:+ Js.show a = prefix +:+ Js.show b → a = b.
Proof.
  induction prefix as [|c prefix IH]; simpl.
  - apply pretty_Z_inj.
  - intros [= H]. auto.
Qed.

(** C8: an issue id is the category prefix followed by the numeric id
    the platform assigned, so it depends on nothing else: two raw
    records of one category get the same id exactly when they carry
    the same numeric id, a review comment gets the same id on the
    GraphQL path and on the REST fallback, ids of different categories
    never coincide, and every issue of every poll is built this way. *)
Theorem C8_issue_identity :
  (∀ t t' c c', gc_databaseId c = gc_databaseId c' ↔
                i_id (review_issue t c) = i_id (review_issue t' c'))
  ∧ (∀ t c c', gc_databaseId c = rc_id c' ↔
               i_id (review_issue t c) = i_id (rest_issue c'))
  ∧ (∀ c c', rc_id c = rc_id c' ↔ i_id (rest_issue c) = i_id (rest_issue c'))
  ∧ (∀ c c', ic_id c = ic_id c' ↔
             i_id (comment_issue c) = i_id (comment_issue c'))
  ∧ (∀ r r', run_id r = run_id r' ↔ i_id (run_issue r) = i_id (run_issue r'))
  ∧ (∀ s s', cs_id s = cs_id s' ↔
             i_id (status_issue s) = i_id (status_issue s'))
  ∧ (∀ t c rc ic r s,
       i_id (review_issue t c) ≠ i_id (comment_issue ic)
       ∧ i_id (review_issue t c) ≠ i_id (run_issue r)
       ∧ i_id (review_issue t c) ≠ i_id (status_issue s)
       ∧ i_id (rest_issue rc) ≠ i_id (comment_issue ic)
       ∧ i_id (rest_issue rc) ≠ i_id (run_issue r)
       ∧ i_id (rest_issue rc) ≠ i_id (status_issue s)
       ∧ i_id (comment_issue ic) ≠ i_id (run_issue r)
       ∧ i_id (comment_issue ic) ≠ i_id (status_issue s)
       ∧ i_id (run_issue r) ≠ i_id (status_issue s))
  ∧ (∀ inp i, In i (allIssues_of inp) →
       ∃ n, i_id i = "review-" +:+ Js.show n ∨ i_id i = "issue-" +:+ Js.show n
            ∨ i_id i = "ci-" +:+ Js.show n ∨ i_id i = "status-" +:+ Js.show n).
Proof.
  assert (Hiff : ∀ (prefix : string) (a b : Z),
            a = b ↔ prefix +:+ Js.show a = prefix +:+ Js.show b).
  { intros prefix a b. split; [by intros ->|apply prefixed_show_inj]. }
  split; [intros; apply Hiff|]. split; [intros; apply Hiff|].
  split; [intros; apply Hiff|]. split; [intros; apply Hiff|].
  split; [intros; apply Hiff|]. split; [intros; apply Hiff|].
  split.
  - intros t c rc ic r s. repeat split; simpl; discriminate.
  - intros inp i Hi. apply allIssues_origin in Hi as [Ho _].
    destruct Ho as [t c ->|c ->|c ->|run ->|s ->]; eexists; simpl; eauto.
Qed.

(** C7: what [getCIFailures] does with commit statuses.  A failing
    check run and a failing status with the same URL or the same name
    up to case give one issue, the check run's.  But the duplicate test
    runs against every issue pushed so far, earlier statuses included:
    with no check run at all, of two failing statuses without a target
    URL only the first is kept. *)
Theorem C7_status_dedup_tests_all_issues :
  (∀ pr run status,
     run_failed run = true → status_failed status = true →
     i_url (run_issue run) = cs_target_url status
     ∨ Js.lower_opt (run_name run) = Js.lower_opt (cs_context status) →
     getCIFailures (Some pr) (Some [run]) (Some [status]) = [run_issue run])
  ∧ getCIFailures (Some ex_pr) (Some [ex_lint_run]) (Some [ex_lint_status])
    = [run_issue ex_lint_run]
  ∧ getCIFailures (Some ex_pr) (Some []) (Some [ex_build_status; ex_deploy_status])
    = [status_issue ex_build_status].
Proof.
  split; [|split].
  - intros pr run status Hr Hs Hn. by apply getCIFailures_pair.
  - apply getCIFailures_pair; [reflexivity|reflexivity|by left].
  - reflexivity.
Qed.

(** ** Notification rules *)

Definition is_new_issues_event (e : event) : bool :=
  match e with NewIssues _ => true | _ => false end.

Definition is_ready_event (e : event) : bool :=
  match e with ReadyToMerge => true | _ => false end.

Definition is_queue_event (e : event) : bool :=
  match e with QueueTransition _ _ => true | _ => false end.

Definition count_ready (r : poll_result) : nat :=
  length (List.filter is_ready_event (out_events r)).

Lemma queue_events_filter last current mq :
  List.filter is_new_issues_event (queue_events last current mq) = []
  ∧ List.filter is_ready_event (queue_events last current mq) = []
  ∧ List.filter is_queue_event (queue_events last current mq)
    = queue_events last current mq.
Proof. unfold queue_events. repeat case_match; simpl; auto. Qed.

Lemma new_issues_fired st inp :
  List.filter is_new_issues_event (out_events (pollForIssues st inp))
  = new_events st inp.
Proof.
  rewrite pollForIssues_unfold. simpl. rewrite !List.filter_app.
  destruct (queue_events_filter (lastMergeQueueState st)
              (currentQueueState_of (mergeQueueStatus_of inp))
              (mergeQueueStatus_of inp)) as (-> & _ & _).
  unfold new_events, ready_events. repeat case_match; reflexivity.
Qed.

Lemma ready_fired st inp :
  List.filter is_ready_event (out_events (pollForIssues st inp))
  = ready_events st inp.
Proof.
  rewrite pollForIssues_unfold. simpl. rewrite !List.filter_app.
  destruct (queue_events_filter (lastMergeQueueState st)
              (currentQueueState_of (mergeQueueStatus_of inp))
              (mergeQueueStatus_of inp)) as (_ & -> & _).
  unfold new_events, ready_events. repeat case_match; reflexivity.
Qed.

Lemma queue_fired st inp :
  List.filter is_queue_event (out_events (pollForIssues st inp))
  = queue_events (lastMergeQueueState st)
      (currentQueueState_of (mergeQueueStatus_of inp)) (mergeQueueStatus_of inp).
Proof.
  rewrite pollForIssues_unfold. simpl. rewrite !List.filter_app.
  destruct (queue_events_filter (lastMergeQueueState st)
              (currentQueueState_of (mergeQueueStatus_of inp))
              (mergeQueueStatus_of inp)) as (_ & _ & ->).
  unfold new_events, ready_events. repeat case_match; simpl;
    by rewrite ?app_nil_r.
Qed.

Lemma nonempty_length {A} (l : list A) : l ≠ [] ↔ (0 <? length l) = true.
Proof.
  destruct l as [|x l]; split; intros H; try done.
Qed.

(** C1 (as amended): on every poll, the first included, whose
    newly-seen issues contain a blocking one, [sendNotification] is
    called once, with exactly the new blocking issues (the issues of
    the poll whose id was not seen before and that are not marked
    non-blocking), and [notifiedReadyToMerge] is false when the poll
    ends. *)
Theorem C1_new_blocking_issues_notify st inp :
  let r := pollForIssues st inp in
  let newBlockingIssues := List.filter is_blocking (out_newIssues r) in
  newBlockingIssues ≠ [] →
  List.filter is_new_issues_event (out_events r) = [NewIssues newBlockingIssues]
  ∧ (∀ i, In i newBlockingIssues ↔
          In i (out_allIssues r) ∧ (i_id i ∉ seenIssueIds st)
          ∧ Js.truthy_bool (i_nonBlocking i) = false)
  ∧ notifiedReadyToMerge (out_state r) = false.
Proof.
  intros r nb. subst r nb. rewrite new_issues_fired.
  rewrite pollForIssues_unfold. simpl.
  fold (newBlockingIssues_of st inp). intros Hne.
  apply nonempty_length in Hne.
  split; [|split].
  - unfold new_events. by rewrite Hne.
  - intros i. unfold newBlockingIssues_of. rewrite !filter_In.
    unfold unseen, is_blocking. rewrite !negb_true_iff, bool_decide_eq_false.
    tauto.
  - destruct (new_blocking_blocks_ready st inp Hne) as [_ ->].
    unfold notified_at_check. by rewrite Hne.
Qed.

(** C2: what the merge-queue block does when the stored state is
    [null].  The guard [lastMergeQueueState !== null] closes the whole
    block, so a poll that finds the pull request newly in the queue
    sends nothing; over the four polls AWAITING_CHECKS (position 2),
    AWAITING_CHECKS (position 0), MERGEABLE, merged, the only
    merge-queue notification is the one for the merge. *)
Theorem C2_no_queue_event_after_null_state st inp :
  lastMergeQueueState st = None →
  List.filter is_queue_event (out_events (pollForIssues st inp)) = []
  ∧ map (λ r, List.filter is_queue_event (out_events r))
        (run initial_state ex_queue_trace)
    = [ []; []; []; [QueueTransition MERGED "Your PR has been merged!"] ].
Proof.
  intros Hlast. split.
  - rewrite queue_fired, Hlast. unfold queue_events.
    rewrite (bool_decide_eq_true_2 (None = None) eq_refl), andb_false_r.
    reflexivity.
  - vm_compute. reflexivity.
Qed.

Lemma count_ready_spec st inp :
  count_ready (pollForIssues st inp)
  = if ready_guard st inp && previouslyHadBlockingIssues st then 1 else 0.
Proof.
  unfold count_ready. rewrite ready_fired. unfold ready_events.
  by destruct (ready_guard st inp && previouslyHadBlockingIssues st).
Qed.

Lemma no_blocking_no_new_blocking st inp :
  hasBlockingIssues_of inp = false →
  (0 <? length (newBlockingIssues_of st inp)) = false.
Proof.
  intros H. destruct (0 <? length (newBlockingIssues_of st inp)) eqn:E; [|done].
  apply filter_nonempty_weaken in E. unfold hasBlockingIssues_of in H. congruence.
Qed.

Lemma unseen_empty i : unseen ∅ i = true.
Proof.
  unfold unseen. by rewrite bool_decide_eq_false_2 by apply not_elem_of_empty.
Qed.

Lemma filter_all_true {A} (f : A → bool) (l : list A) :
  (∀ x, f x = true) → List.filter f l = l.
Proof.
  intros Hf. induction l as [|x l IH]; simpl; [done|]. by rewrite Hf, IH.
Qed.

(** The ready rule in the words of the specification: its fourth
    condition asks for a blocking issue or a failed check on some
    earlier poll of the run. *)
Definition had_blocking_or_failing_ci (r : poll_result) : bool :=
  (0 <? length (List.filter is_blocking (out_allIssues r)))
  || (0 <? failed (out_ciStatus r)).

Definition ready_rule_as_specified
    (earlier : list poll_input) (inp : poll_input) : Prop :=
  let st := final_state initial_state earlier in
  let r := pollForIssues st inp in
  In ReadyToMerge (out_events r) ↔
    hasBlockingIssues_of inp = false
    ∧ allGreen (out_ciStatus r) = true
    ∧ notifiedReadyToMerge st = false
    ∧ ∃ p, In p (run initial_state earlier)
           ∧ had_blocking_or_failing_ci p = true.

(** The ready block as the code has it: [sendReadyToMergeNotification]
    is called on a poll exactly when no blocking issue is active, the CI
    aggregate is [allGreen], [notifiedReadyToMerge] is false and
    [previouslyHadBlockingIssues], which every poll overwrites, is true;
    it is called at most once per poll and leaves [notifiedReadyToMerge]
    true.  From the initial state, over three polls of which the first
    has a blocking issue and the next two have none and green CI, it is
    called once, on the second poll. *)
Lemma ready_rule :
  (∀ st inp,
     let r := pollForIssues st inp in
     (In ReadyToMerge (out_events r) ↔
        hasBlockingIssues_of inp = false
        ∧ allGreen (out_ciStatus r) = true
        ∧ notifiedReadyToMerge st = false
        ∧ previouslyHadBlockingIssues st = true)
     ∧ count_ready r ≤ 1
     ∧ (In ReadyToMerge (out_events r) →
        notifiedReadyToMerge (out_state r) = true))
  ∧ (∀ p1 p2 p3,
       hasBlockingIssues_of p1 = true →
       hasBlockingIssues_of p2 = false → allGreen (ciStatus_of p2) = true →
       hasBlockingIssues_of p3 = false → allGreen (ciStatus_of p3) = true →
       map count_ready (run initial_state [p1; p2; p3]) = [0; 1; 0]).
Proof.
  split.
  - intros st inp r. subst r. rewrite ready_fires_iff, count_ready_spec.
    rewrite pollForIssues_unfold. simpl.
    split; [|split].
    + unfold ready_guard, notified_at_check. split.
      * intros [Hg Hp]. apply andb_true_iff in Hg as [Hg Hn].
        apply andb_true_iff in Hg as [Hb Hc].
        apply negb_true_iff in Hb, Hn.
        rewrite (no_blocking_no_new_blocking st inp Hb) in Hn. auto.
      * intros (Hb & Hc & Hn & Hp).
        rewrite (no_blocking_no_new_blocking st inp Hb), Hb, Hc, Hn. auto.
    + case_match; lia.
    + by intros [-> _].
  - intros p1 p2 p3 Hb1 Hb2 Hg2 Hb3 Hg3. simpl.
    rewrite !count_ready_spec.
    set (s1 := out_state (pollForIssues initial_state p1)).
    set (s2 := out_state (pollForIssues s1 p2)).
    assert (Hnew1 : (0 <? length (newBlockingIssues_of initial_state p1)) = true).
    { unfold newBlockingIssues_of. simpl.
      rewrite (filter_all_true (unseen ∅)) by apply unseen_empty. exact Hb1. }
    assert (Hs1 : previouslyHadBlockingIssues s1 = true
                  ∧ notifiedReadyToMerge s1 = false).
    { subst s1. rewrite pollForIssues_unfold. simpl.
      destruct (new_blocking_blocks_ready _ _ Hnew1) as [_ ->].
      unfold notified_at_check. by rewrite Hnew1. }
    destruct Hs1 as [Hp1 Hn1].
    assert (Hg : ready_guard s1 p2 = true).
    { unfold ready_guard, notified_at_check.
      by rewrite (no_blocking_no_new_blocking s1 p2 Hb2), Hb2, Hg2, Hn1. }
    assert (Hs2 : notifiedReadyToMerge s2 = true).
    { subst s2. rewrite pollForIssues_unfold. simpl. by rewrite Hg. }
    assert (Hg' : ready_guard s2 p3 = false).
    { unfold ready_guard, notified_at_check.
      rewrite (no_blocking_no_new_blocking s2 p3 Hb3), Hs2.
      by rewrite andb_false_r. }
    assert (Hg0 : ready_guard initial_state p1 = false).
    { unfold ready_guard. by rewrite Hb1. }
    by rewrite Hg0, Hg, Hp1, Hg'.
Qed.

(** A poll that is neither blocked nor green, between the blocking poll
    and the green one, loses the notification: the flag
    [notifiedReadyToMerge] is still false when the green poll starts, but
    [previouslyHadBlockingIssues] has been overwritten. *)
Lemma ready_lost_after_unready_poll p1 p2 p3 :
  hasBlockingIssues_of p1 = true →
  hasBlockingIssues_of p2 = false → allGreen (ciStatus_of p2) = false →
  hasBlockingIssues_of p3 = false → allGreen (ciStatus_of p3) = true →
  notifiedReadyToMerge (final_state initial_state [p1; p2]) = false
  ∧ map count_ready (run initial_state [p1; p2; p3]) = [0; 0; 0].
Proof.
  intros Hb1 Hb2 Hg2 Hb3 Hg3. simpl.
  rewrite !count_ready_spec.
  set (s1 := out_state (pollForIssues initial_state p1)).
  set (s2 := out_state (pollForIssues s1 p2)).
  assert (Hnew1 : (0 <? length (newBlockingIssues_of initial_state p1)) = true).
  { unfold newBlockingIssues_of. simpl.
    rewrite (filter_all_true (unseen ∅)) by apply unseen_empty. exact Hb1. }
  assert (Hn1 : notifiedReadyToMerge s1 = false).
  { subst s1. rewrite pollForIssues_unfold. simpl.
    destruct (new_blocking_blocks_ready _ _ Hnew1) as [_ ->].
    unfold notified_at_check. by rewrite Hnew1. }
  assert (Hg : ready_guard s1 p2 = false).
  { unfold ready_guard. by rewrite Hg2, andb_false_r. }
  assert (Hs2 : notifiedReadyToMerge s2 = false
                ∧ previouslyHadBlockingIssues s2 = false).
  { subst s2. rewrite pollForIssues_unfold. simpl. rewrite Hg.
    unfold notified_at_check.
    by rewrite (no_blocking_no_new_blocking s1 p2 Hb2). }
  destruct Hs2 as [Hn2 Hp2].
  assert (Hg0 : ready_guard initial_state p1 = false).
  { unfold ready_guard. by rewrite Hb1. }
  split; [exact Hn2|].
  rewrite Hg0, Hg, Hp2, (andb_false_r (ready_guard s2 p3)). reflexivity.
Qed.

(** ** The seen set *)

Lemma poll_seen st inp :
  seenIssueIds (out_state (pollForIssues st inp))
  = seenIssueIds st ∪ list_to_set (map i_id (allIssues_of inp)).
Proof. by rewrite pollForIssues_unfold. Qed.

Lemma poll_new_unseen st inp i :
  In i (out_newIssues (pollForIssues st inp)) →
  In i (allIssues_of inp) ∧ i_id i ∉ seenIssueIds st.
Proof.
  rewrite pollForIssues_unfold. simpl. rewrite filter_In.
  unfold unseen. rewrite negb_true_iff, bool_decide_eq_false. tauto.
Qed.

Lemma poll_seeds st inp i :
  In i (out_allIssues (pollForIssues st inp)) →
  i_id i ∈ seenIssueIds (out_state (pollForIssues st inp)).
Proof.
  rewrite poll_seen, pollForIssues_unfold. simpl. intros Hi.
  apply elem_of_union_r, elem_of_list_to_set, list_elem_of_In, in_map_iff.
  by exists i.
Qed.

(** Whatever poll of a run one looks at, it starts from a superset of
    the seen set the run started with. *)
Lemma run_from_seen inputs : ∀ st k r,
  run st inputs !! k = Some r →
  seenIssueIds st ⊆ seenIssueIds (out_state r)
  ∧ (∀ i, In i (out_newIssues r) → i_id i ∉ seenIssueIds st).
Proof.
  induction inputs as [|inp inputs IH]; intros st k r; [done|].
  destruct k as [|k]; simpl.
  - intros [= <-]. split.
    + rewrite poll_seen. apply union_subseteq_l.
    + intros i Hi. by apply poll_new_unseen in Hi as [_ ?].
  - intros Hk. apply IH in Hk as [Hsub Hnew].
    pose proof (poll_seen st inp) as Hs.
    split.
    + etrans; [|exact Hsub]. rewrite Hs. apply union_subseteq_l.
    + intros i Hi Hin. apply (Hnew i Hi). rewrite Hs. by apply elem_of_union_l.
Qed.

(** C5: along any run of polls, the seen set after a poll contains the
    seen set before it and the ids of all issues of that poll, the seen
    set after a later poll contains the seen set after an earlier one,
    and no issue reported as new by the later poll has an id that was in
    the seen set after the earlier one, whatever the platform returns. *)
Theorem C5_seen_set_monotone_no_renotify st inputs n m rn rm :
  n < m →
  run st inputs !! n = Some rn →
  run st inputs !! m = Some rm →
  seenIssueIds st ⊆ seenIssueIds (out_state rn)
  ∧ (∀ i, In i (out_allIssues rn) → i_id i ∈ seenIssueIds (out_state rn))
  ∧ seenIssueIds (out_state rn) ⊆ seenIssueIds (out_state rm)
  ∧ (∀ i, In i (out_newIssues rm) → i_id i ∉ seenIssueIds (out_state rn)).
Proof.
  revert st n m rn rm.
  induction inputs as [|inp inputs IH]; intros st n m rn rm Hlt Hn Hm; [done|].
  destruct m as [|m]; [lia|]. simpl in Hm.
  destruct n as [|n]; simpl in Hn.
  - injection Hn as <-.
    apply run_from_seen in Hm as [Hsub Hnew].
    split; [rewrite poll_seen; apply union_subseteq_l|].
    split; [apply poll_seeds|]. by split.
  - destruct (IH (out_state (pollForIssues st inp)) n m rn rm) as (H1 & H2 & H3 & H4);
      [lia|done|done|].
    split; [|by repeat split].
    etrans; [|exact H1]. rewrite poll_seen. apply union_subseteq_l.
Qed.

(** ** Failed fetches *)

(** C9 (as amended): a failed fetch never stops the poll, and the
    category keeps only what was normalised before the failure: nothing
    for general comments, nothing for review comments when the GraphQL
    query and its REST fallback both fail, nothing for CI when the pull
    request or the check-run listing cannot be fetched, and the
    check-run issues alone when only the commit-status listing fails;
    the other categories are reported as usual.  When any call of the CI
    status check fails, [allGreen] is false and no ready notification
    is sent on that poll. *)
Theorem C9_failed_fetch_degrades :
  getPRIssueComments None = []
  ∧ getCursorbotComments None None = []
  ∧ (∀ runs statuses, getCIFailures None runs statuses = [])
  ∧ (∀ pr statuses, getCIFailures pr None statuses = [])
  ∧ (∀ pr runs, getCIFailures (Some pr) (Some runs) None
                = map run_issue (List.filter run_failed runs))
  ∧ (∀ st inp,
       in_issueComments inp = None →
       out_allIssues (pollForIssues st inp)
       = getCursorbotComments (in_reviewThreads inp) (in_reviewComments inp)
         ++ getCIFailures (in_ci_pr inp) (in_ci_checkRuns inp) (in_ci_statuses inp))
  ∧ (∀ st inp,
       in_st_pr inp = None ∨ in_st_checkRuns inp = None ∨ in_st_statuses inp = None →
       allGreen (out_ciStatus (pollForIssues st inp)) = false
       ∧ ¬ In ReadyToMerge (out_events (pollForIssues st inp))).
Proof.
  split; [done|]. split; [done|]. split; [done|].
  split; [by intros [?|] ?|]. split; [done|]. split.
  - intros st inp Hc. rewrite pollForIssues_unfold. simpl.
    unfold allIssues_of. by rewrite Hc.
  - intros st inp Hfail.
    assert (Hg : allGreen (ciStatus_of inp) = false)
      by by apply checkCIStatus_failed_fetch.
    split.
    + by rewrite pollForIssues_unfold.
    + rewrite ready_fires_iff. unfold ready_guard. rewrite Hg.
      rewrite andb_false_r. simpl. intros [? _]. discriminate.
Qed.

End Watcher.

(** ** Concrete runs

    The examples below run the watcher with [NON_BLOCKING_CI] unset. *)

(** C1, counterexample: the first poll is not special.  From the initial
    state, a poll that finds a blocking review comment and a failing
    check sends the new-issues notification. *)
Lemma C1_first_poll_not_suppressed :
  ¬ (∀ inp,
       let r := pollForIssues None initial_state inp in
       List.filter is_blocking (out_newIssues r) ≠ [] →
       List.filter is_new_issues_event (out_events r) = []).
Proof.
  intros H. specialize (H ex_poll_red). cbv zeta in H.
  assert (Hne : List.filter is_blocking
                  (out_newIssues (pollForIssues None initial_state ex_poll_red)) ≠ [])
    by (vm_compute; discriminate).
  apply H in Hne. vm_compute in Hne. discriminate.
Qed.

(** The rule on a later poll: after a quiet poll, a blocking review
    comment and a failing check appear. *)
Lemma C1_new_blocking_issues_notify_witness :
  let st := out_state (pollForIssues None initial_state ex_poll_green) in
  let r := pollForIssues None st ex_poll_red in
  List.filter is_blocking (out_newIssues r) ≠ []
  ∧ List.filter is_new_issues_event (out_events r)
    = [NewIssues (List.filter is_blocking (out_newIssues r))]
  ∧ notifiedReadyToMerge (out_state r) = false.
Proof.
  intros st r.
  assert (Hne : List.filter is_blocking (out_newIssues r) ≠ [])
    by (vm_compute; discriminate).
  destruct (C1_new_blocking_issues_notify None st ex_poll_red Hne) as (H1 & _ & H3).
  exact (conj Hne (conj H1 H3)).
Defined.

(** The first poll that finds the pull request in the queue. *)
Lemma C2_no_queue_event_after_null_state_witness :
  lastMergeQueueState initial_state = None
  ∧ List.filter is_queue_event
      (out_events (pollForIssues None initial_state
                     (ex_poll [] [ex_unit_run_ok] [] false (ex_entry "AWAITING_CHECKS" 2))))
    = [].
Proof.
  split; [reflexivity|].
  apply (C2_no_queue_event_after_null_state None initial_state
           (ex_poll [] [ex_unit_run_ok] [] false (ex_entry "AWAITING_CHECKS" 2))).
  reflexivity.
Defined.

(** The ready rule in the words of the specification fails on two runs:
    every condition holds on the last poll and no ready notification is
    sent.  In the first, a blocking issue on the first poll is followed
    by a poll with no issue and a check still running, then by a poll
    with no issue and green CI.  In the second, a poll with a failed
    check that produces no issue is followed by a poll with green CI. *)
Lemma ready_rule_as_specified_fails :
  ¬ ready_rule_as_specified None [ex_poll_red; ex_poll_pending] ex_poll_green
  ∧ ¬ ready_rule_as_specified None [ex_poll_action_required] ex_poll_green.
Proof.
  split.
  - unfold ready_rule_as_specified. intros [_ H].
    assert (Hfire : In ReadyToMerge
              (out_events (pollForIssues None
                 (final_state None initial_state [ex_poll_red; ex_poll_pending])
                 ex_poll_green))).
    { apply H. split; [reflexivity|]. split; [reflexivity|]. split; [reflexivity|].
      exists (pollForIssues None initial_state ex_poll_red).
      split; [by left|reflexivity]. }
    vm_compute in Hfire. tauto.
  - unfold ready_rule_as_specified. intros [_ H].
    assert (Hfire : In ReadyToMerge
              (out_events (pollForIssues None
                 (final_state None initial_state [ex_poll_action_required])
                 ex_poll_green))).
    { apply H. split; [reflexivity|]. split; [reflexivity|]. split; [reflexivity|].
      exists (pollForIssues None initial_state ex_poll_action_required).
      split; [by left|reflexivity]. }
    vm_compute in Hfire. tauto.
Qed.

(** C3: the ready notification on the code.  Over the three polls of the
    claim (a blocking issue, then twice no blocking issue and green CI)
    it is sent once, on the second poll.  But when a poll with no
    blocking issue and CI not yet green comes between the blocking poll
    and the green one, no poll of the run sends it, although on the green
    poll no blocking issue is active, the aggregate is [allGreen],
    [notifiedReadyToMerge] is false and an earlier poll had a blocking
    issue: [previouslyHadBlockingIssues] was overwritten in between.  The
    run with the review comment fixed, the check running, then passed, is
    such a run. *)
Theorem C3_ready_lost_after_pending_poll :
  (∀ env p1 p2 p3,
     hasBlockingIssues_of env p1 = true →
     hasBlockingIssues_of env p2 = false → allGreen (ciStatus_of env p2) = true →
     hasBlockingIssues_of env p3 = false → allGreen (ciStatus_of env p3) = true →
     map count_ready (run env initial_state [p1; p2; p3]) = [0; 1; 0])
  ∧ (∀ env p1 p2 p3,
       hasBlockingIssues_of env p1 = true →
       hasBlockingIssues_of env p2 = false → allGreen (ciStatus_of env p2) = false →
       hasBlockingIssues_of env p3 = false → allGreen (ciStatus_of env p3) = true →
       notifiedReadyToMerge (final_state env initial_state [p1; p2]) = false
       ∧ map count_ready (run env initial_state [p1; p2; p3]) = [0; 0; 0])
  ∧ map count_ready
      (run None initial_state [ex_poll_red; ex_poll_pending; ex_poll_green])
    = [0; 0; 0]
  ∧ ¬ ready_rule_as_specified None [ex_poll_red; ex_poll_pending] ex_poll_green.
Proof.
  split; [|split; [|split]].
  - intros env. apply (proj2 (ready_rule env)).
  - intros env. apply ready_lost_after_unready_poll.
  - vm_compute. reflexivity.
  - apply ready_rule_as_specified_fails.
Qed.

(** The run of the claim (red, green, green) and the run that loses the
    notification (red, pending, green). *)
Lemma C3_ready_lost_after_pending_poll_witness :
  hasBlockingIssues_of None ex_poll_red = true
  ∧ hasBlockingIssues_of None ex_poll_pending = false
  ∧ allGreen (ciStatus_of None ex_poll_pending) = false
  ∧ hasBlockingIssues_of None ex_poll_green = false
  ∧ allGreen (ciStatus_of None ex_poll_green) = true
  ∧ map count_ready
      (run None initial_state [ex_poll_red; ex_poll_green; ex_poll_green])
    = [0; 1; 0]
  ∧ map count_ready
      (run None initial_state [ex_poll_red; ex_poll_pending; ex_poll_green])
    = [0; 0; 0].
Proof.
  split; [reflexivity|]. split; [reflexivity|]. split; [reflexivity|].
  split; [reflexivity|]. split; [reflexivity|]. split.
  - apply (proj1 C3_ready_lost_after_pending_poll None
             ex_poll_red ex_poll_green ex_poll_green); reflexivity.
  - apply (proj1 (proj2 C3_ready_lost_after_pending_poll) None
             ex_poll_red ex_poll_pending ex_poll_green); reflexivity.
Defined.

(** C4, counterexample: the check runs are listed (one, passed) and the
    commit-status call throws.  The snapshot has [total = 1],
    [pending = 0], [failed = 0], and [allGreen] is false. *)
Lemma C4_snapshot_cut_short_by_exception :
  let s := checkCIStatus None (Some ex_pr) (Some [ex_unit_run_ok]) None in
  ¬ (allGreen s = true ↔ 0 < total s ∧ pending s = 0 ∧ failed s = 0).
Proof.
  vm_compute. intros [_ H]. assert (Hf : false = true) by (apply H; auto).
  discriminate.
Qed.

(** A failed check next to a running one. *)
Lemma C4_allGreen_characterisation_witness :
  let s := checkCIStatus None (Some ex_pr) (Some [ex_lint_run; ex_unit_run_pending]) (Some []) in
  (0 < failed s ∨ 0 < pending s) ∧ allGreen s = false.
Proof.
  intros s.
  assert (H : 0 < failed s ∨ 0 < pending s) by (left; vm_compute; lia).
  split; [exact H|].
  exact (proj1 (proj2 (C4_allGreen_characterisation None))
           (Some ex_pr) (Some [ex_lint_run; ex_unit_run_pending]) (Some []) H).
Defined.

(** The same issues reported on two polls in a row. *)
Lemma C5_seen_set_monotone_no_renotify_witness :
  let rs := run None initial_state [ex_poll_red; ex_poll_red] in
  ∃ r0 r1,
    rs !! 0 = Some r0 ∧ rs !! 1 = Some r1
    ∧ seenIssueIds (out_state r0) ⊆ seenIssueIds (out_state r1)
    ∧ (∀ i, In i (out_newIssues r1) → i_id i ∉ seenIssueIds (out_state r0)).
Proof.
  intros rs.
  exists (pollForIssues None initial_state ex_poll_red).
  exists (pollForIssues None
            (out_state (pollForIssues None initial_state ex_poll_red)) ex_poll_red).
  split; [reflexivity|]. split; [reflexivity|].
  destruct (C5_seen_set_monotone_no_renotify None initial_state
              [ex_poll_red; ex_poll_red] 0 1
              (pollForIssues None initial_state ex_poll_red)
              (pollForIssues None
                 (out_state (pollForIssues None initial_state ex_poll_red)) ex_poll_red))
    as (_ & _ & H3 & H4); [lia|reflexivity|reflexivity|].
  exact (conj H3 H4).
Defined.

(** The review issue of the open sample thread. *)
Lemma C6_active_issues_not_resolved_nor_outdated_witness :
  let r := pollForIssues None initial_state ex_poll_red in
  let i := review_issue (ex_thread false)
             {| gc_databaseId := 501; gc_body := Some "Possible null dereference";
                gc_url := Some "https://git.example/pr/1#r501";
                gc_author_login := Some "cursor[bot]";
                gc_createdAt := Some "2025-01-01T00:00:00Z" |} in
  In i (out_allIssues r)
  ∧ i_resolved i ≠ Some true ∧ i_outdated i ≠ Some true.
Proof.
  intros r i.
  assert (Hi : In i (out_allIssues r)) by (left; reflexivity).
  split; [exact Hi|].
  exact (proj1 (C6_active_issues_not_resolved_nor_outdated None initial_state
                  ex_poll_red) i Hi).
Defined.

(** The lint job, reported as a check run and as a commit status. *)
Lemma C7_status_dedup_tests_all_issues_witness :
  run_failed ex_lint_run = true ∧ status_failed ex_lint_status = true
  ∧ getCIFailures None (Some ex_pr) (Some [ex_lint_run]) (Some [ex_lint_status])
    = [run_issue None ex_lint_run].
Proof.
  split; [reflexivity|]. split; [reflexivity|].
  apply (proj1 (C7_status_dedup_tests_all_issues None) ex_pr ex_lint_run ex_lint_status);
    [reflexivity|reflexivity|left; reflexivity].
Defined.

(** The id of the lint check-run issue. *)
Lemma C8_issue_identity_witness :
  let i := run_issue None ex_lint_run in
  In i (allIssues_of None ex_poll_red)
  ∧ ∃ n, i_id i = "review-" +:+ Js.show n ∨ i_id i = "issue-" +:+ Js.show n
         ∨ i_id i = "ci-" +:+ Js.show n ∨ i_id i = "status-" +:+ Js.show n.
Proof.
  intros i.
  assert (Hi : In i (allIssues_of None ex_poll_red)) by (right; left; reflexivity).
  split; [exact Hi|].
  exact (proj2 (proj2 (proj2 (proj2 (proj2 (proj2 (proj2
           (C8_issue_identity None))))))) ex_poll_red i Hi).
Defined.

(** C9, counterexample: a failed fetch that does not leave its category
    empty.  The check-run listing succeeds with a failing run and the
    commit-status call throws: the check-run issue stays.  The GraphQL
    query for review threads throws: the REST listing is used instead and
    its bot comment is reported. *)
Lemma C9_failed_fetch_not_always_empty :
  getCIFailures None (Some ex_pr) (Some [ex_lint_run]) None
  = [run_issue None ex_lint_run]
  ∧ getCIFailures None (Some ex_pr) (Some [ex_lint_run]) None ≠ []
  ∧ getCursorbotComments None (Some [ex_rest_comment]) = [rest_issue ex_rest_comment]
  ∧ getCursorbotComments None (Some [ex_rest_comment]) ≠ [].
Proof.
  split; [reflexivity|]. split; [discriminate|]. split; [reflexivity|discriminate].
Qed.

(** A poll right after a blocking one, clean but for the failed
    commit-status call of the CI status check. *)
Lemma C9_failed_fetch_degrades_witness :
  let inp :=
    {| in_reviewThreads := Some [ex_thread true];
       in_reviewComments := None;
       in_issueComments := Some [];
       in_ci_pr := Some ex_pr;
       in_ci_checkRuns := Some [ex_unit_run_ok];
       in_ci_statuses := Some [];
       in_mq_pr := Some ex_pr;
       in_mq_entry := Some None;
       in_st_pr := Some ex_pr;
       in_st_checkRuns := Some [ex_unit_run_ok];
       in_st_statuses := None |} in
  let st := out_state (pollForIssues None initial_state ex_poll_red) in
  in_st_statuses inp = None
  ∧ previouslyHadBlockingIssues st = true
  ∧ allGreen (out_ciStatus (pollForIssues None st inp)) = false
  ∧ ¬ In ReadyToMerge (out_events (pollForIssues None st inp)).
Proof.
  intros inp st. split; [reflexivity|]. split; [reflexivity|].
  apply (proj2 (proj2 (proj2 (proj2 (proj2 (proj2
           (C9_failed_fetch_degrades None)))))) st inp).
  right; right; reflexivity.
Defined.

(** The lint job again: one issue, two reports counted. *)
Lemma C10_total_counts_every_report_witness :
  run_failed ex_lint_run = true ∧ status_failed ex_lint_status = true
  ∧ length (getCIFailures None (Some ex_pr) (Some [ex_lint_run]) (Some [ex_lint_status])) = 1
  ∧ total (checkCIStatus None (Some ex_pr) (Some [ex_lint_run]) (Some [ex_lint_status])) = 2.
Proof.
  split; [reflexivity|]. split; [reflexivity|].
  destruct (proj2 (proj2 (C10_total_counts_every_report None ex_pr [] []))
              ex_lint_run ex_lint_status) as (H1 & H2 & _);
    [reflexivity|reflexivity|reflexivity|].
  exact (conj H1 H2).
Defined.

(** * Further coverage

    The rest of this file covers code around the polling engine: the
    parsing of pull-request references and of issue ids, and further
    properties of the classifier, the normalisers and the poll. *)

(** ** Scanning helpers for the regular expressions of the source *)

Module Re.

(** [\d] *)
Definition is_digit (c : ascii) : bool :=
  let n := nat_of_ascii c in (48 <=? n)%nat && (n <=? 57)%nat.

(** A negated one-character class, [[^/]] or [[^#]]. *)
Definition not_char (x : ascii) (c : ascii) : bool := negb (bool_decide (c = x)).

Fixpoint all_chars (f : ascii → bool) (s : string) : bool :=
  match s with
  | EmptyString => true
  | String c s' => f c && all_chars f s'
  end.

(** [lacks x s]: the character [x] does not occur in [s]. *)
Definition lacks (x : ascii) (s : string) : bool := all_chars (not_char x) s.

(** The longest prefix of [s] whose characters satisfy [f], and what
    follows it: a greedy [[class]*]. *)
Fixpoint span (f : ascii → bool) (s : string) : string * string :=
  match s with
  | EmptyString => (EmptyString, EmptyString)
  | String c s' =>
      if f c then let '(a, r) := span f s' in (String c a, r)
      else (EmptyString, s)
  end.

(** [strip_prefix p s]: what follows the literal [p] at the start of [s]. *)
Fixpoint strip_prefix (p s : string) : option string :=
  match p, s with
  | EmptyString, _ => Some s
  | String _ _, EmptyString => None
  | String a p', String c s' =>
      if bool_decide (c = a) then strip_prefix p' s' else None
  end.

(** An unanchored pattern is tried at every position, leftmost first. *)
Fixpoint search {A} (m : string → option A) (s : string) : option A :=
  match m s with
  | Some r => Some r
  | None =>
      match s with
      | EmptyString => None
      | String _ s' => search m s'
      end
  end.

Definition digit_value (c : ascii) : N := N.of_nat (nat_of_ascii c - 48).

Fixpoint parseInt_go (acc : N) (s : string) : N :=
  match s with
  | EmptyString => acc
  | String c s' => parseInt_go (acc * 10 + digit_value c) s'
  end.

(** [Number.MAX_SAFE_INTEGER], [2^53 - 1]: up to it every integer is a
    JavaScript number, printed in plain decimal and read back exactly. *)
Definition MAX_SAFE_INTEGER : Z := 9007199254740991.

(** [parseInt] on a string of decimal digits.  The value is the exact
    integer; JavaScript rounds it to a double, which is the same number
    up to [MAX_SAFE_INTEGER].  The theorems on parsed numbers carry that
    bound. *)
Definition parseInt (digits : string) : Z := Z.of_N (parseInt_go 0 digits).

Fixpoint count_char (x : ascii) (s : string) : nat :=
  match s with
  | EmptyString => 0
  | String c s' => (if bool_decide (c = x) then 1 else 0) + count_char x s'
  end.

End Re.

(** ** Pull-request references *)

Record pr_info := {
  owner : string;
  repo : string;
  number : Z;
}.

(** [/github\.com\/([^/]+)\/([^/]+)\/pull\/(\d+)/] tried at the start of
    [s].  Each [[^/]+] must be followed by a slash, so only its longest
    run can match; [\d+] is last and takes every digit. *)
Definition match_url_at (s : string) : option pr_info :=
  match Re.strip_prefix "github.com/" s with
  | Some s1 =>
      match Re.span (Re.not_char "/") s1 with
      | (String c o, String "/" s2) =>
          match Re.span (Re.not_char "/") s2 with
          | (String d r, s3) =>
              match Re.strip_prefix "/pull/" s3 with
              | Some s4 =>
                  match Re.span Re.is_digit s4 with
                  | (String e n, _) =>
                      Some {| owner := String c o; repo := String d r;
                              number := Re.parseInt (String e n) |}
                  | _ => None
                  end
              | None => None
              end
          | _ => None
          end
      | _ => None
      end
  | None => None
  end.

(** [/([^/]+)\/([^#]+)#(\d+)/] tried at the start of [s]. *)
Definition match_short_at (s : string) : option pr_info :=
  match Re.span (Re.not_char "/") s with
  | (String c o, String "/" s1) =>
      match Re.span (Re.not_char "#") s1 with
      | (String d r, String "#" s2) =>
          match Re.span Re.is_digit s2 with
          | (String e n, _) =>
              Some {| owner := String c o; repo := String d r;
                      number := Re.parseInt (String e n) |}
          | _ => None
          end
      | _ => None
      end
  | _ => None
  end.

Definition parsePRReference (ref : string) : option pr_info :=
  match Re.search match_url_at ref with
  | Some urlMatch => Some urlMatch
  | None => Re.search match_short_at ref
  end.

Definition getPRUrl (prInfo : option pr_info) : option string :=
  match prInfo with
  | None => None
  | Some i =>
      Some ("https://github.com/" +:+ owner i +:+ "/" +:+ repo i
            +:+ "/pull/" +:+ Js.show (number i))
  end.

(** ** Issue ids as [detail.js] reads them *)

Inductive id_kind := IdReview | IdIssue | IdCi.

(** [^prefix(\d+)$]: the captured digits. *)
Definition match_id (prefix : string) (issueId : string) : option string :=
  match Re.strip_prefix prefix issueId with
  | Some (String c d) =>
      if Re.all_chars Re.is_digit (String c d) then Some (String c d) else None
  | _ => None
  end.

(** The dispatch of [getIssueDetail]: which branch runs and with what
    numeric id; [None] is the "Invalid issue ID format" exit. *)
Definition parseIssueId (issueId : string) : option (id_kind * string) :=
  match match_id "review-" issueId with
  | Some commentId => Some (IdReview, commentId)
  | None =>
      match match_id "issue-" issueId with
      | Some commentId => Some (IdIssue, commentId)
      | None =>
          match match_id "ci-" issueId with
          | Some runId => Some (IdCi, runId)
          | None => None
          end
      end
  end.

(** ** Decimal digits *)

Lemma pretty_N_char_digit (d : N) :
  (d < 10)%N →
  Re.is_digit (pretty_N_char d) = true ∧ Re.digit_value (pretty_N_char d) = d.
Proof.
  intros Hd.
  assert (Hn : ∃ k : nat, (k < 10)%nat ∧ d = N.of_nat k).
  { exists (N.to_nat d). split; lia. }
  destruct Hn as (k & Hk & ->).
  do 10 (destruct k as [|k]; [by vm_compute|]). lia.
Qed.

Lemma parseInt_go_acc (s : string) : ∀ acc,
  Re.parseInt_go acc s
  = (acc * 10 ^ N.of_nat (String.length s) + Re.parseInt_go 0 s)%N.
Proof.
  induction s as [|c s IH]; intros acc.
  - simpl. lia.
  - cbn [Re.parseInt_go String.length]. rewrite IH, (IH (0 * 10 + _)%N).
    rewrite Nat2N.inj_succ, N.pow_succ_r'. lia.
Qed.

Lemma pretty_N_go_digits (x : N) : ∀ s,
  Re.all_chars Re.is_digit s = true →
  Re.all_chars Re.is_digit (pretty_N_go x s) = true
  ∧ Re.parseInt_go 0 (pretty_N_go x s)
    = (x * 10 ^ N.of_nat (String.length s) + Re.parseInt_go 0 s)%N.
Proof.
  induction (N.lt_wf_0 x) as [x _ IH]. intros s Hs.
  destruct (decide (x = 0%N)) as [->|Hx].
  - rewrite pretty_N_go_0. split; [done|lia].
  - rewrite pretty_N_go_step by lia.
    destruct (pretty_N_char_digit (x `mod` 10)%N) as [Hd Hv];
      [apply N.mod_lt; lia|].
    destruct (IH (x `div` 10)%N) with (s := String (pretty_N_char (x `mod` 10)) s)
      as [Hall Hval].
    + apply N.div_lt; lia.
    + simpl. by rewrite Hd, Hs.
    + split; [exact Hall|]. rewrite Hval.
      cbn [Re.parseInt_go String.length].
      rewrite (parseInt_go_acc s (0 * 10 + _)%N), Hv.
      rewrite Nat2N.inj_succ, N.pow_succ_r'.
      pose proof (N.div_mod x 10 ltac:(lia)) as Hdm. nia.
Qed.

(** The decimal string of a non-negative number is a non-empty run of
    digits that [parseInt] reads back. *)
Lemma show_digits (n : Z) :
  (0 ≤ n)%Z →
  Js.show n ≠ EmptyString
  ∧ Re.all_chars Re.is_digit (Js.show n) = true
  ∧ Re.parseInt (Js.show n) = n.
Proof.
  intros Hn. unfold Js.show, Re.parseInt.
  destruct n as [|p|p]; [by vm_compute| |lia].
  change (pretty (Z.pos p)) with (pretty_N_go (N.pos p) "").
  destruct (pretty_N_go_digits (N.pos p) "" eq_refl) as [Hall Hval].
  simpl in Hval. split; [|split; [exact Hall|]].
  - intros Hempty. rewrite Hempty in Hval. simpl in Hval. lia.
  - rewrite Hval. lia.
Qed.

(** ** Scanning lemmas *)

Lemma span_app (f : ascii → bool) (a r : string) :
  Re.all_chars f a = true →
  (r = EmptyString ∨ ∃ c r', r = String c r' ∧ f c = false) →
  Re.span f (a +:+ r) = (a, r).
Proof.
  intros Ha Hr. induction a as [|c a IH]; simpl in *.
  - destruct Hr as [->|(c & r' & -> & Hc)]; [done|]. simpl. by rewrite Hc.
  - apply andb_true_iff in Ha as [Hc Ha]. by rewrite Hc, (IH Ha).
Qed.

Lemma strip_prefix_app (p s : string) : Re.strip_prefix p (p +:+ s) = Some s.
Proof.
  induction p as [|c p IH]; simpl; [by destruct s|].
  by rewrite bool_decide_eq_true_2.
Qed.

Lemma count_char_app (x : ascii) (a b : string) :
  Re.count_char x (a +:+ b) = Re.count_char x a + Re.count_char x b.
Proof. induction a as [|c a IH]; simpl; [done|]. rewrite IH. lia. Qed.

Lemma count_char_cons_same (x : ascii) (s : string) :
  Re.count_char x (String x s) = S (Re.count_char x s).
Proof. simpl. by rewrite bool_decide_eq_true_2. Qed.

Lemma strip_prefix_split (p : string) : ∀ s r,
  Re.strip_prefix p s = Some r → s = p +:+ r.
Proof.
  induction p as [|a p IH]; intros s r; simpl.
  - by intros [= ->].
  - destruct s as [|c s]; [done|]. case_bool_decide as Hc; [|done].
    intros Hs. apply IH in Hs. by subst.
Qed.

Lemma span_split (f : ascii → bool) (s : string) :
  s = (Re.span f s).1 +:+ (Re.span f s).2.
Proof.
  induction s as [|c s IH]; simpl; [done|].
  destruct (f c); [|done]. destruct (Re.span f s) as [a r]. simpl in *.
  subst s. reflexivity.
Qed.

Lemma lacks_count (x : ascii) (s : string) :
  Re.lacks x s = true ↔ Re.count_char x s = 0.
Proof.
  unfold Re.lacks, Re.not_char. induction s as [|c s IH]; simpl; [done|].
  rewrite andb_true_iff, IH. case_bool_decide; simpl.
  - split; [by intros [? _]|lia].
  - split; [by intros [_ ?]|by intros ?].
Qed.

Lemma digits_lack (x : ascii) (s : string) :
  Re.is_digit x = false → Re.all_chars Re.is_digit s = true → Re.lacks x s = true.
Proof.
  intros Hx. unfold Re.lacks, Re.not_char.
  induction s as [|c s IH]; simpl; [done|].
  intros [Hc Hs]%andb_true_iff. rewrite (IH Hs), andb_true_r.
  apply negb_true_iff, bool_decide_eq_false. intros ->. congruence.
Qed.

Lemma search_count {A} (m : string → option A) (x : ascii) (k : nat) :
  (∀ s r, m s = Some r → k ≤ Re.count_char x s) →
  ∀ s r, Re.search m s = Some r → k ≤ Re.count_char x s.
Proof.
  intros Hm. induction s as [|c s IH]; intros r; simpl.
  - destruct (m EmptyString) eqn:E; [|done]. intros _. by apply Hm in E.
  - destruct (m (String c s)) eqn:E.
    + intros _. by apply Hm in E.
    + intros H. apply IH in H. lia.
Qed.

Lemma match_url_at_slashes s r :
  match_url_at s = Some r → 4 ≤ Re.count_char "/" s.
Proof.
  unfold match_url_at.
  destruct (Re.strip_prefix "github.com/" s) as [s1|] eqn:E1; [|done].
  apply strip_prefix_split in E1 as ->.
  pose proof (span_split (Re.not_char "/") s1) as H1.
  destruct (Re.span (Re.not_char "/") s1) as [[|c o] [|c1 s2]]; try done.
  destruct (decide (c1 = "/"%char)) as [->|Hne];
    [|by destruct c1 as [[] [] [] [] [] [] [] []]].
  pose proof (span_split (Re.not_char "/") s2) as H2.
  destruct (Re.span (Re.not_char "/") s2) as [[|d rp] s3]; try done.
  destruct (Re.strip_prefix "/pull/" s3) as [s4|] eqn:E3; [|done].
  apply strip_prefix_split in E3 as ->. intros _.
  cbn [fst snd] in H1, H2.
  rewrite count_char_app, H1, count_char_app.
  rewrite (count_char_cons_same "/" s2), H2, !count_char_app.
  change (Re.count_char "/" "github.com/") with 1.
  change (Re.count_char "/" "/pull/") with 2. lia.
Qed.

Lemma match_short_at_slashes s r :
  match_short_at s = Some r → 1 ≤ Re.count_char "/" s.
Proof.
  unfold match_short_at.
  pose proof (span_split (Re.not_char "/") s) as H1.
  destruct (Re.span (Re.not_char "/") s) as [[|c o] [|c1 s2]]; try done.
  destruct (decide (c1 = "/"%char)) as [->|Hne];
    [|by destruct c1 as [[] [] [] [] [] [] [] []]].
  intros _. cbn [fst snd] in H1.
  rewrite H1, count_char_app, (count_char_cons_same "/" s2). lia.
Qed.

Lemma search_here {A} (m : string → option A) s r :
  m s = Some r → Re.search m s = Some r.
Proof. intros H. destruct s; simpl; by rewrite H. Qed.

Lemma search_none_skip {A} (m : string → option A) c s :
  m (String c s) = None → Re.search m (String c s) = Re.search m s.
Proof. intros H. simpl. by rewrite H. Qed.

Lemma append_empty_r (s : string) : s +:+ EmptyString = s.
Proof.
  induction s as [|c s IH]; [done|].
  change (String c s +:+ EmptyString) with (String c (s +:+ EmptyString)).
  by rewrite IH.
Qed.

Lemma span_digits_show (n : Z) :
  (0 ≤ n)%Z →
  ∃ c d, Js.show n = String c d
         ∧ Re.span Re.is_digit (Js.show n) = (String c d, EmptyString)
         ∧ Re.all_chars Re.is_digit (String c d) = true
         ∧ Re.parseInt (String c d) = n.
Proof.
  intros Hn. destruct (show_digits n Hn) as (Hne & Hall & Hval).
  destruct (Js.show n) as [|c d] eqn:E; [done|].
  exists c, d. split; [done|]. split; [|by split].
  rewrite <- (append_empty_r (String c d)) at 1.
  apply span_app; auto.
Qed.

Lemma match_url_at_built (o r : string) (n : Z) :
  o ≠ EmptyString → Re.lacks "/" o = true →
  r ≠ EmptyString → Re.lacks "/" r = true →
  (0 ≤ n)%Z →
  match_url_at ("github.com/" +:+ o +:+ "/" +:+ r +:+ "/pull/" +:+ Js.show n)
  = Some {| owner := o; repo := r; number := n |}.
Proof.
  intros Ho Hol Hr Hrl Hn. unfold match_url_at.
  rewrite strip_prefix_app.
  rewrite (span_app (Re.not_char "/") o) by (auto; right; by eexists _, _).
  destruct o as [|c o]; [done|].
  change ("/" +:+ r +:+ "/pull/" +:+ Js.show n)
    with (String "/" (r +:+ "/pull/" +:+ Js.show n)).
  cbv iota beta.
  rewrite (span_app (Re.not_char "/") r) by (auto; right; by eexists _, _).
  destruct r as [|d r]; [done|].
  rewrite strip_prefix_app.
  destruct (span_digits_show n Hn) as (e & ds & -> & -> & _ & ->).
  reflexivity.
Qed.

Lemma match_short_at_built (o r : string) (n : Z) :
  o ≠ EmptyString → Re.lacks "/" o = true →
  r ≠ EmptyString → Re.lacks "#" r = true →
  (0 ≤ n)%Z →
  match_short_at (o +:+ "/" +:+ r +:+ "#" +:+ Js.show n)
  = Some {| owner := o; repo := r; number := n |}.
Proof.
  intros Ho Hol Hr Hrl Hn. unfold match_short_at.
  rewrite (span_app (Re.not_char "/") o) by (auto; right; by eexists _, _).
  destruct o as [|c o]; [done|].
  change ("/" +:+ r +:+ "#" +:+ Js.show n)
    with (String "/" (r +:+ "#" +:+ Js.show n)).
  cbv iota beta.
  rewrite (span_app (Re.not_char "#") r) by (auto; right; by eexists _, _).
  destruct r as [|d r]; [done|].
  change ("#" +:+ Js.show n) with (String "#" (Js.show n)).
  cbv iota beta.
  destruct (span_digits_show n Hn) as (e & ds & -> & -> & _ & ->).
  reflexivity.
Qed.

(** X1: The URL that [getPRUrl] builds parses back to the reference it was
    built from, provided owner and repository are non-empty and free of
    slashes and the number is an integer from 0 to
    [Number.MAX_SAFE_INTEGER] (where the template literal prints plain
    decimal digits and [parseInt] reads them back exactly). *)
Theorem parsePRReference_getPRUrl (i : pr_info) :
  owner i ≠ EmptyString → Re.lacks "/" (owner i) = true →
  repo i ≠ EmptyString → Re.lacks "/" (repo i) = true →
  (0 ≤ number i ≤ Re.MAX_SAFE_INTEGER)%Z →
  getPRUrl (Some i) ≫= parsePRReference = Some i.
Proof.
  intros Ho Hol Hr Hrl [Hn _]. destruct i as [o r n]. simpl in *.
  unfold parsePRReference.
  change ("https://github.com/" +:+ o +:+ "/" +:+ r +:+ "/pull/" +:+ Js.show n)
    with (String "h" (String "t" (String "t" (String "p" (String "s"
           (String ":" (String "/" (String "/"
              ("github.com/" +:+ o +:+ "/" +:+ r +:+ "/pull/" +:+ Js.show n))))))))).
  do 8 (rewrite search_none_skip by reflexivity).
  by rewrite (search_here _ _ _ (match_url_at_built o r n Ho Hol Hr Hrl Hn)).
Qed.

(** X2: The short form [owner/repo#number], with the number written in
    decimal and at most [Number.MAX_SAFE_INTEGER] (so that [parseInt]
    returns it unrounded), parses to its three parts. *)
Theorem parsePRReference_short (o r : string) (n : Z) :
  o ≠ EmptyString → Re.lacks "/" o = true →
  r ≠ EmptyString → Re.lacks "/" r = true → Re.lacks "#" r = true →
  (0 ≤ n ≤ Re.MAX_SAFE_INTEGER)%Z →
  parsePRReference (o +:+ "/" +:+ r +:+ "#" +:+ Js.show n)
  = Some {| owner := o; repo := r; number := n |}.
Proof.
  intros Ho Hol Hr Hrl Hrh [Hn _]. unfold parsePRReference.
  destruct (Re.search match_url_at (o +:+ "/" +:+ r +:+ "#" +:+ Js.show n))
    as [u|] eqn:E.
  - apply (search_count match_url_at "/" 4 match_url_at_slashes) in E.
    rewrite !count_char_app in E.
    apply lacks_count in Hol, Hrl.
    destruct (show_digits n Hn) as (_ & Hall & _).
    pose proof (proj1 (lacks_count "/" _) (digits_lack "/" _ eq_refl Hall)) as Hd.
    change (Re.count_char "/" "/") with 1 in E.
    change (Re.count_char "/" "#") with 0 in E. lia.
  - by apply search_here, match_short_at_built.
Qed.

(** X3: A reference without a slash is rejected: a bare number or [#123]
    makes the watcher stop with "Invalid PR reference". *)
Theorem parsePRReference_needs_slash (ref : string) :
  Re.lacks "/" ref = true → parsePRReference ref = None.
Proof.
  intros Hl. apply lacks_count in Hl. unfold parsePRReference.
  destruct (Re.search match_url_at ref) as [u|] eqn:E.
  { apply (search_count match_url_at "/" 4 match_url_at_slashes) in E. lia. }
  destruct (Re.search match_short_at ref) as [u|] eqn:E'; [|done].
  apply (search_count match_short_at "/" 1 match_short_at_slashes) in E'. lia.
Qed.

Lemma match_id_built (prefix : string) (n : Z) :
  (0 ≤ n)%Z → match_id prefix (prefix +:+ Js.show n) = Some (Js.show n).
Proof.
  intros Hn. unfold match_id. rewrite strip_prefix_app.
  destruct (span_digits_show n Hn) as (c & d & -> & _ & -> & _). reflexivity.
Qed.

(** X4: The ids the watcher prints are the ids [detail.js] accepts, for
    review comments, general comments and check runs with a non-negative
    platform id, and the captured digits are the platform id; the id of a
    commit-status issue is never accepted. *)
Theorem detail_reads_watcher_ids (env : option string) :
  (∀ t c, (0 ≤ gc_databaseId c)%Z →
     parseIssueId (i_id (review_issue t c))
     = Some (IdReview, Js.show (gc_databaseId c)))
  ∧ (∀ c, (0 ≤ rc_id c)%Z →
       parseIssueId (i_id (rest_issue c)) = Some (IdReview, Js.show (rc_id c)))
  ∧ (∀ c, (0 ≤ ic_id c)%Z →
       parseIssueId (i_id (comment_issue c)) = Some (IdIssue, Js.show (ic_id c)))
  ∧ (∀ r, (0 ≤ run_id r)%Z →
       parseIssueId (i_id (run_issue env r)) = Some (IdCi, Js.show (run_id r)))
  ∧ (∀ s, parseIssueId (i_id (status_issue env s)) = None).
Proof.
  split; [|split; [|split; [|split]]].
  - intros t c Hn. unfold parseIssueId. simpl i_id. by rewrite match_id_built.
  - intros c Hn. unfold parseIssueId. simpl i_id. by rewrite match_id_built.
  - intros c Hn. unfold parseIssueId. simpl i_id.
    change (match_id "review-" ("issue-" +:+ Js.show (ic_id c))) with (@None string).
    by rewrite match_id_built.
  - intros r Hn. unfold parseIssueId. simpl i_id.
    change (match_id "review-" ("ci-" +:+ Js.show (run_id r))) with (@None string).
    change (match_id "issue-" ("ci-" +:+ Js.show (run_id r))) with (@None string).
    by rewrite match_id_built.
  - intros s. reflexivity.
Qed.

(** ** The classifier *)

Lemma lower_ascii_idem (c : ascii) :
  Js.lower_ascii (Js.lower_ascii c) = Js.lower_ascii c.
Proof. destruct c as [[] [] [] [] [] [] [] []]; reflexivity. Qed.

Lemma toLowerCase_idem (s : string) :
  Js.toLowerCase (Js.toLowerCase s) = Js.toLowerCase s.
Proof.
  induction s as [|c s IH]; simpl; [done|]. by rewrite lower_ascii_idem, IH.
Qed.

Lemma toLowerCase_empty (s : string) :
  Js.toLowerCase s = EmptyString ↔ s = EmptyString.
Proof. destruct s; simpl; split; intros; done. Qed.

Lemma startsWith_empty (s : string) : Js.startsWith s EmptyString = true.
Proof. by destruct s. Qed.

Lemma includes_empty (s : string) : Js.includes s EmptyString = true.
Proof. destruct s; simpl; [done|]. done. Qed.

Lemma startsWith_app (p q : string) : ∀ s,
  Js.startsWith s (p +:+ q) = true → Js.startsWith s p = true.
Proof.
  induction p as [|a p IH]; intros s; [by rewrite startsWith_empty|].
  change (String a p +:+ q) with (String a (p +:+ q)).
  destruct s as [|c s]; simpl; [done|].
  intros [Hc Hs]%andb_true_iff. rewrite Hc. simpl. by apply IH.
Qed.

Lemma includes_app (p q : string) (s : string) :
  Js.includes s (p +:+ q) = true → Js.includes s p = true.
Proof.
  induction s as [|c s IH]; cbn [Js.includes].
  - apply (startsWith_app p q EmptyString).
  - intros [H|H]%orb_true_iff; apply orb_true_iff.
    + left. revert H. apply (startsWith_app p q (String c s)).
    + right. by apply IH.
Qed.

Lemma existsb_app_l {A} (f : A → bool) (l1 l2 : list A) :
  existsb f l1 = true → existsb f (l1 ++ l2) = true.
Proof. intros H. rewrite existsb_app, H. done. Qed.

(** X5: The classifier, whatever [NON_BLOCKING_CI] holds: a job without a
    name is blocking, setting the variable never makes a job blocking
    that the default patterns make non-blocking, and the answer depends
    on the job name only up to letter case. *)
Theorem isNonBlockingCI_env_and_case (env : option string) :
  isNonBlockingCI env None = false
  ∧ isNonBlockingCI env (Some EmptyString) = false
  ∧ (∀ name, isNonBlockingCI None name = true → isNonBlockingCI env name = true)
  ∧ (∀ a b, Js.toLowerCase a = Js.toLowerCase b →
            isNonBlockingCI env (Some a) = isNonBlockingCI env (Some b)).
Proof.
  split; [done|]. split; [done|]. split.
  - intros [[|c n]|]; try done. unfold isNonBlockingCI, getNonBlockingPatterns.
    rewrite app_nil_r. apply existsb_app_l.
  - intros a b Hab. unfold isNonBlockingCI.
    destruct a as [|c a], b as [|d b]; try done.
    by rewrite Hab.
Qed.

(** X6: An empty item in [NON_BLOCKING_CI], as a trailing comma leaves one,
    is an empty pattern, and an empty pattern occurs in every name: every
    named job is then non-blocking. *)
Theorem empty_pattern_matches_every_job (e name : string) :
  e ≠ EmptyString →
  In EmptyString (map Js.trim (Js.split "," e)) →
  name ≠ EmptyString →
  isNonBlockingCI (Some e) (Some name) = true.
Proof.
  intros He Hin Hname. unfold isNonBlockingCI, getNonBlockingPatterns.
  destruct e as [|c e]; [done|]. destruct name as [|d name]; [done|].
  rewrite existsb_app. apply orb_true_iff. right.
  apply existsb_exists. exists EmptyString. split; [|apply includes_empty].
  apply in_map_iff in Hin as (p & Hp & Hin).
  apply in_map_iff. exists p. split; [|done]. by rewrite Hp.
Qed.

(** X7: A login is a review bot exactly when, in lower case, it contains
    [cursor] or [codex]; the roster entry [codex-connector] adds nothing. *)
Theorem isReviewBot_iff (login : string) :
  isReviewBot (Some login) = true ↔
  Js.includes (Js.toLowerCase login) "cursor" = true
  ∨ Js.includes (Js.toLowerCase login) "codex" = true.
Proof.
  destruct login as [|c l]; [by split; [|intros [|]]|].
  unfold isReviewBot, REVIEW_BOTS. cbn [existsb].
  rewrite orb_false_r, !orb_true_iff.
  pose proof (includes_app "codex" "-connector" (Js.toLowerCase (String c l))) as Hc.
  change ("codex" +:+ "-connector") with "codex-connector" in Hc.
  tauto.
Qed.

Section Coverage.

Variable env : option string.

(** ** The normalisers *)

(** X8: Every review issue, on the GraphQL path and on the REST fallback,
    carries the login of a roster bot as its author (the placeholder
    ["bot"] is never used), has the bot type read off that login, and is
    blocking. *)
Theorem review_issues_come_from_bots threads reviewComments i :
  In i (getCursorbotComments threads reviewComments) →
  ∃ login, i_author i = Some login
           ∧ isReviewBot (Some login) = true
           ∧ login ≠ "bot"
           ∧ i_type i = review_bot
           ∧ i_botType i = Some (botType_of login)
           ∧ is_blocking i = true.
Proof.
  assert (Hbot : ∀ l, isReviewBot l = true →
            ∃ login, l = Some login ∧ Js.or_default l "bot" = login
                     ∧ isReviewBot (Some login) = true ∧ login ≠ "bot").
  { intros [[|c l]|] Hl; try done. exists (String c l).
    repeat split; try done. intros Heq. by rewrite Heq in Hl. }
  destruct threads as [ts|]; simpl.
  - intros Hi. apply in_flat_map in Hi as (t & _ & Hi).
    unfold thread_issues in Hi.
    destruct (rt_isResolved t || rt_isOutdated t); [destruct Hi|].
    apply in_map_iff in Hi as (c & <- & Hc). apply filter_In in Hc as [_ Hc].
    destruct (Hbot _ Hc) as (login & Hl & Hd & Hr & Hne).
    exists login. unfold review_issue. simpl. rewrite Hd. by repeat split.
  - destruct reviewComments as [cs|]; [|intros []]. simpl.
    intros Hi. apply in_map_iff in Hi as (c & <- & Hc).
    apply filter_In in Hc as [Hc _]. apply filter_In in Hc as [_ Hc].
    destruct (Hbot _ Hc) as (login & Hl & Hd & Hr & Hne).
    exists login. unfold rest_issue. simpl. rewrite Hd. by repeat split.
Qed.

Lemma fold_push_status_shape statuses : ∀ issues,
  ∃ kept,
    fold_left (push_status env) statuses issues
    = issues ++ map (status_issue env) kept
    ∧ sublist kept (List.filter status_failed statuses)
    ∧ ∀ before s after, kept = before ++ s :: after →
        isDuplicate (issues ++ map (status_issue env) before) s = false.
Proof.
  induction statuses as [|s statuses IH]; intros issues; simpl.
  - exists []. split; [by rewrite app_nil_r|]. split; [done|].
    intros [|? ?] ? ? ?; done.
  - unfold push_status at 2.
    destruct (status_failed s) eqn:Hf.
    + destruct (isDuplicate issues s) eqn:Hd.
      * destruct (IH issues) as (kept & Heq & Hsub & Hfresh).
        exists kept. split; [done|]. split; [by apply sublist_cons|done].
      * destruct (IH (issues ++ [status_issue env s])) as (kept & Heq & Hsub & Hfresh).
        exists (s :: kept). split; [by rewrite Heq, <- app_assoc|].
        split; [by apply sublist_skip|].
        intros [|b before] s' after Hk; simplify_eq/=.
        -- by rewrite app_nil_r.
        -- specialize (Hfresh before s' after eq_refl).
           by rewrite <- app_assoc in Hfresh.
    + destruct (IH issues) as (kept & Heq & Hsub & Hfresh). by exists kept.
Qed.

(** X9: The list of CI failures, when the three calls succeed: first the
    issue of every failed, cancelled or timed-out check run, in listing
    order and without any filtering, then the issues of some of the
    failing commit statuses, in listing order; a status that is kept
    duplicates (by URL or by name up to case) nothing that precedes it in
    the list. *)
Theorem getCIFailures_shape pr runs statuses :
  ∃ kept,
    getCIFailures env (Some pr) (Some runs) (Some statuses)
    = map (run_issue env) (List.filter run_failed runs)
      ++ map (status_issue env) kept
    ∧ sublist kept (List.filter status_failed statuses)
    ∧ ∀ before s after, kept = before ++ s :: after →
        isDuplicate (map (run_issue env) (List.filter run_failed runs)
                     ++ map (status_issue env) before) s = false.
Proof. apply fold_push_status_shape. Qed.

Definition unsettled (r : ci_status) : nat := pending r + failed r.

Lemma count_run_unsettled r run :
  unsettled r ≤ unsettled (count_run env r run)
  ∧ (run_failed run = true → isNonBlockingCI env (run_name run) = false →
     unsettled r < unsettled (count_run env r run)).
Proof.
  unfold count_run, unsettled.
  destruct (negb (Js.str_eqb (run_status run) "completed")); [simpl; lia|].
  destruct (run_passed run) eqn:Hp.
  - split; [simpl; lia|]. intros Hf _. exfalso.
    unfold run_failed, run_passed, Js.is_lit in *.
    repeat case_bool_decide; simplify_eq/=; congruence.
  - destruct (isNonBlockingCI env (run_name run)); simpl; split;
      try lia; intros; done.
Qed.

Lemma count_status_unsettled r s :
  unsettled r ≤ unsettled (count_status env r s)
  ∧ (status_failed s = true → isNonBlockingCI env (cs_context s) = false →
     unsettled r < unsettled (count_status env r s)).
Proof.
  unfold count_status, unsettled, status_failed, Js.str_eqb.
  repeat case_bool_decide; simpl;
    try (destruct (isNonBlockingCI env (cs_context s)); simpl);
    split; intros; try lia; try done; congruence.
Qed.

Lemma fold_count_run_unsettled runs : ∀ r,
  unsettled r ≤ unsettled (fold_left (count_run env) runs r)
  ∧ (∀ run, In run runs → run_failed run = true →
       isNonBlockingCI env (run_name run) = false →
       unsettled r < unsettled (fold_left (count_run env) runs r)).
Proof.
  induction runs as [|x runs IH]; intros r; simpl; [split; [lia|intros ? []]|].
  destruct (IH (count_run env r x)) as [Hle Hhit].
  destruct (count_run_unsettled r x) as [Hle' Hhit'].
  split; [lia|]. intros run [->|Hin] Hf Hb.
  - specialize (Hhit' Hf Hb). lia.
  - specialize (Hhit run Hin Hf Hb). lia.
Qed.

Lemma fold_count_status_unsettled statuses : ∀ r,
  unsettled r ≤ unsettled (fold_left (count_status env) statuses r)
  ∧ (∀ s, In s statuses → status_failed s = true →
       isNonBlockingCI env (cs_context s) = false →
       unsettled r < unsettled (fold_left (count_status env) statuses r)).
Proof.
  induction statuses as [|x statuses IH]; intros r; simpl; [split; [lia|intros ? []]|].
  destruct (IH (count_status env r x)) as [Hle Hhit].
  destruct (count_status_unsettled r x) as [Hle' Hhit'].
  split; [lia|]. intros s [->|Hin] Hf Hb.
  - specialize (Hhit' Hf Hb). lia.
  - specialize (Hhit s Hin Hf Hb). lia.
Qed.

(** X10: The issue list and the aggregate agree in one direction: when both
    read the same listings, a blocking CI issue in the list means the
    aggregate is not all green. *)
Theorem blocking_ci_issue_not_green pr pr' runs statuses i :
  In i (getCIFailures env (Some pr) (Some runs) (Some statuses)) →
  is_blocking i = true →
  allGreen (checkCIStatus env (Some pr') (Some runs) (Some statuses)) = false.
Proof.
  intros Hi Hb.
  destruct (checkCIStatus_ok_fields env pr' runs statuses) as (-> & _ & _ & _ & _).
  set (r1 := fold_left (count_run env) runs ci_status_init).
  set (r2 := fold_left (count_status env) statuses r1).
  assert (Hpos : 0 < unsettled r2).
  { destruct (fold_count_run_unsettled runs ci_status_init) as [_ Hrun].
    destruct (fold_count_status_unsettled statuses r1) as [Hle Hst].
    fold r1 in Hrun. fold r2 in Hle, Hst.
    simpl in Hi. apply fold_push_status_In in Hi as [Hi|(s & Hs & Hf & ->)].
    - apply in_map_iff in Hi as (run & <- & Hr). apply filter_In in Hr as [Hr Hf].
      unfold is_blocking in Hb. simpl in Hb. apply negb_true_iff in Hb.
      specialize (Hrun run Hr Hf Hb). lia.
    - unfold is_blocking in Hb. simpl in Hb. apply negb_true_iff in Hb.
      specialize (Hst s Hs Hf Hb). lia. }
  unfold unsettled in Hpos.
  destruct (pending r2 =? 0) eqn:Hp; [|by rewrite andb_false_r].
  destruct (failed r2 =? 0) eqn:Hf; [|by rewrite andb_false_r].
  apply Nat.eqb_eq in Hp, Hf. lia.
Qed.

(** ** More on one poll and on runs of polls *)

Lemma filter_none {A} (f : A → bool) (l : list A) :
  (∀ x, In x l → f x = false) → List.filter f l = [].
Proof.
  induction l as [|x l IH]; intros Hf; simpl; [done|].
  rewrite (Hf x (or_introl eq_refl)). apply IH. intros y Hy. apply Hf. by right.
Qed.

(** X11: Polling twice against the same platform answers: the second poll
    finds nothing new, sends no new-issues notification and leaves the
    seen set as the first poll left it. *)
Theorem repeated_poll_reports_nothing_new st inp :
  let r1 := pollForIssues env st inp in
  let r2 := pollForIssues env (out_state r1) inp in
  out_newIssues r2 = []
  ∧ List.filter is_new_issues_event (out_events r2) = []
  ∧ seenIssueIds (out_state r2) = seenIssueIds (out_state r1).
Proof.
  intros r1 r2.
  assert (Hnew : out_newIssues r2 = []).
  { subst r2. rewrite pollForIssues_unfold. simpl.
    apply filter_none.
    intros i Hi. unfold unseen. apply negb_false_iff, bool_decide_eq_true.
    subst r1. rewrite poll_seen.
    apply elem_of_union_r, elem_of_list_to_set, list_elem_of_In, in_map_iff.
    by exists i. }
  split; [exact Hnew|]. split.
  - subst r2. rewrite new_issues_fired. unfold new_events, newBlockingIssues_of.
    rewrite pollForIssues_unfold in Hnew. simpl in Hnew. by rewrite Hnew.
  - subst r2 r1. rewrite !poll_seen.
    apply set_eq. intros x. rewrite !elem_of_union. tauto.
Qed.

(** X12: An issue of the poll whose id was not seen before and that is a bot
    comment (of either kind) or a blocking CI failure is carried by the
    new-issues notification of that poll. *)
Theorem unseen_blocking_issue_is_notified st inp i :
  In i (allIssues_of env inp) →
  i_id i ∉ seenIssueIds st →
  i_type i ≠ ci_failure ∨ is_blocking i = true →
  ∃ issues,
    List.filter is_new_issues_event (out_events (pollForIssues env st inp))
    = [NewIssues issues]
    ∧ In i issues.
Proof.
  intros Hi Hunseen Hkind.
  assert (Hb : is_blocking i = true).
  { destruct Hkind as [Hk|Hb]; [|done].
    apply allIssues_origin in Hi as [Ho _].
    by destruct Ho as [t c ->|c ->|c ->|run ->|s ->]. }
  assert (Hin : In i (newBlockingIssues_of env st inp)).
  { unfold newBlockingIssues_of. rewrite !filter_In. repeat split; [done| |done].
    unfold unseen. by apply negb_true_iff, bool_decide_eq_false. }
  exists (newBlockingIssues_of env st inp). split; [|done].
  rewrite new_issues_fired. unfold new_events.
  destruct (newBlockingIssues_of env st inp); [destruct Hin|done].
Qed.

Lemma quiet_poll_keeps_flag st inp :
  List.filter is_new_issues_event (out_events (pollForIssues env st inp)) = [] →
  notified_at_check env st inp = notifiedReadyToMerge st.
Proof.
  rewrite new_issues_fired. unfold new_events, notified_at_check.
  by destruct (0 <? length (newBlockingIssues_of env st inp)).
Qed.

(** X13: Between two new-issues notifications the ready notification is sent
    at most once: over any run of polls none of which reports a new
    blocking issue, it is sent at most once, and not at all if
    [notifiedReadyToMerge] was already set when the run started. *)
Theorem ready_at_most_once_between_new_issues inputs : ∀ st,
  (∀ r, In r (run env st inputs) →
        List.filter is_new_issues_event (out_events r) = []) →
  sum_list (map count_ready (run env st inputs)) ≤ 1
  ∧ (notifiedReadyToMerge st = true →
     sum_list (map count_ready (run env st inputs)) = 0).
Proof.
  induction inputs as [|inp inputs IH]; intros st Hquiet; simpl; [split; [lia|done]|].
  pose proof (Hquiet _ (or_introl eq_refl)) as Hq.
  apply quiet_poll_keeps_flag in Hq.
  destruct (IH (out_state (pollForIssues env st inp))) as [Hle Hzero].
  { intros r Hr. apply Hquiet. by right. }
  rewrite count_ready_spec.
  assert (Hflag : notifiedReadyToMerge (out_state (pollForIssues env st inp))
                  = if ready_guard env st inp then true else notifiedReadyToMerge st).
  { rewrite pollForIssues_unfold. simpl. by rewrite Hq. }
  assert (Hguard : notifiedReadyToMerge st = true → ready_guard env st inp = false).
  { intros Hn. unfold ready_guard. rewrite Hq, Hn. by rewrite andb_false_r. }
  destruct (ready_guard env st inp) eqn:Hg.
  - rewrite (Hzero Hflag). split.
    + destruct (previouslyHadBlockingIssues st); simpl; lia.
    + intros Hn. by specialize (Hguard Hn).
  - simpl. split; [lia|]. intros Hn. apply Hzero. by rewrite Hflag.
Qed.

(** X14: A merge-queue lookup that fails is read as "not in the queue": if
    the stored state was an in-queue state or MERGED, the poll sends the
    "removed from queue" notification and stores [null]. *)
Theorem failed_queue_fetch_reads_as_removed st inp :
  Js.truthy (lastMergeQueueState st) = true →
  in_mq_pr inp = None
  ∨ (∃ p, in_mq_pr inp = Some p ∧ pr_merged p = false ∧ in_mq_entry inp = None) →
  List.filter is_queue_event (out_events (pollForIssues env st inp))
  = [QueueTransition REMOVED "Check the PR - may need to re-queue"]
  ∧ lastMergeQueueState (out_state (pollForIssues env st inp)) = None.
Proof.
  intros Hlast Hfail.
  assert (Hcur : currentQueueState_of (mergeQueueStatus_of inp) = None).
  { unfold mergeQueueStatus_of, checkMergeQueueStatus.
    destruct Hfail as [->|(p & -> & -> & ->)]; reflexivity. }
  rewrite queue_fired, pollForIssues_unfold, Hcur. simpl. split; [|done].
  unfold queue_events.
  destruct (lastMergeQueueState st) as [[|c l]|]; try done.
Qed.

Lemma In_queue_events st inp e :
  is_queue_event e = true →
  In e (out_events (pollForIssues env st inp)) →
  In e (queue_events (lastMergeQueueState st)
          (currentQueueState_of (mergeQueueStatus_of inp)) (mergeQueueStatus_of inp)).
Proof.
  intros He Hin. rewrite <- (queue_fired env). apply filter_In. by split.
Qed.

(** X15: Merge-queue notifications of one poll, in terms of the state stored
    before and after it: at most one is sent; none when the state did not
    change; none when the pull request moves between two in-queue states;
    and the "merged" notification is sent exactly when the new state is
    MERGED and the old one was neither [null] nor MERGED. *)
Theorem queue_notifications_per_poll st inp :
  let r := pollForIssues env st inp in
  let last := lastMergeQueueState st in
  let current := lastMergeQueueState (out_state r) in
  length (List.filter is_queue_event (out_events r)) ≤ 1
  ∧ (last = current → List.filter is_queue_event (out_events r) = [])
  ∧ (Js.truthy last = true → Js.truthy current = true →
     current ≠ Some "MERGED" →
     List.filter is_queue_event (out_events r) = [])
  ∧ ((∃ m, In (QueueTransition MERGED m) (out_events r)) ↔
     current = Some "MERGED" ∧ last ≠ None ∧ last ≠ Some "MERGED").
Proof.
  intros r last current.
  assert (Hcur : current = currentQueueState_of (mergeQueueStatus_of inp)).
  { subst current r. by rewrite pollForIssues_unfold. }
  assert (Hev : List.filter is_queue_event (out_events r)
                = queue_events last current (mergeQueueStatus_of inp)).
  { subst r last. by rewrite queue_fired, Hcur. }
  assert (Hin : ∀ m, In (QueueTransition MERGED m) (out_events r) ↔
                     In (QueueTransition MERGED m)
                        (queue_events last current (mergeQueueStatus_of inp))).
  { intros m. rewrite <- Hev, filter_In. simpl. tauto. }
  clearbody r last current. rewrite Hev. clear Hev Hcur.
  split; [|split; [|split]].
  - unfold queue_events. repeat case_match; simpl; lia.
  - intros ->. unfold queue_events.
    by rewrite (bool_decide_eq_true_2 (current = current) eq_refl).
  - intros Hl Hc Hm. unfold queue_events, Js.is_lit.
    rewrite (bool_decide_eq_false_2 _ Hm), Hl, Hc. simpl.
    by destruct (negb _ && negb _).
  - split.
    + intros [m Hm]. apply Hin in Hm. revert Hm.
      unfold queue_events, Js.is_lit.
      repeat case_bool_decide; simpl; repeat case_match; simpl;
        intros Hm; repeat (destruct Hm as [Hm|Hm]; try done); simplify_eq; done.
    + intros (Hc & Hn & Hm). exists "Your PR has been merged!". apply Hin.
      unfold queue_events, Js.is_lit.
      rewrite bool_decide_eq_false_2 by congruence.
      rewrite (bool_decide_eq_false_2 _ Hn), (bool_decide_eq_true_2 _ Hc).
      by left.
Qed.

Definition queue_state_valid (s : option string) : Prop :=
  s = None ∨ Js.truthy s = true.

Lemma queued_never_from_valid_state st inp m :
  queue_state_valid (lastMergeQueueState st) →
  ¬ In (QueueTransition QUEUED m) (out_events (pollForIssues env st inp)).
Proof.
  intros Hv Hin. apply In_queue_events in Hin; [|done].
  revert Hin. unfold queue_events.
  destruct Hv as [->|Hv].
  - rewrite (bool_decide_eq_true_2 (None = None) eq_refl), andb_false_r.
    intros [].
  - rewrite Hv. simpl. repeat case_match; simpl; intros Hin;
      repeat (destruct Hin as [Hin|Hin]; try done); done.
Qed.

Lemma poll_keeps_queue_state_valid st inp :
  (∀ e, in_mq_entry inp = Some (Some e) → qe_state e ≠ EmptyString) →
  queue_state_valid (lastMergeQueueState (out_state (pollForIssues env st inp))).
Proof.
  intros He. rewrite pollForIssues_unfold. simpl.
  unfold mergeQueueStatus_of, checkMergeQueueStatus, currentQueueState_of.
  destruct (in_mq_pr inp) as [p|]; [|by left].
  destruct (pr_merged p); [by right|].
  destruct (in_mq_entry inp) as [[e|]|]; try by left.
  simpl. right. specialize (He e eq_refl). by destruct (qe_state e).
Qed.

(** X16: Starting from the initial state, as long as the platform reports
    merge-queue entries with a non-empty state, the "added to queue"
    notification is never sent, on any poll of any run. *)
Theorem queued_notification_never_sent inputs :
  (∀ inp e, In inp inputs → in_mq_entry inp = Some (Some e) →
            qe_state e ≠ EmptyString) →
  ∀ r m, In r (run env initial_state inputs) →
         ¬ In (QueueTransition QUEUED m) (out_events r).
Proof.
  assert (Hgen : ∀ inputs st,
    queue_state_valid (lastMergeQueueState st) →
    (∀ inp e, In inp inputs → in_mq_entry inp = Some (Some e) →
              qe_state e ≠ EmptyString) →
    ∀ r m, In r (run env st inputs) →
           ¬ In (QueueTransition QUEUED m) (out_events r)).
  { clear inputs. induction inputs as [|inp inputs IH]; intros st Hv He r m; [intros []|].
    simpl. intros [<-|Hr].
    - by apply queued_never_from_valid_state.
    - revert Hr. apply IH.
      + apply poll_keeps_queue_state_valid. intros e. apply He. by left.
      + intros inp' e Hin. apply He. by right. }
  intros He. apply Hgen; [by left|done].
Qed.

(** ** The status section of the display *)

(** [ciStatusMsg], built from the aggregate and from the number of
    non-blocking issues in the list. *)
Definition ciStatusMsg_of (ciStatus : ci_status) (nonBlockingCount : nat) : string :=
  if allGreen ciStatus then
    "✅ " +:+ Js.show (Z.of_nat (passed ciStatus)) +:+ " checks passed"
    +:+ (if (0 <? nonBlockingFailed ciStatus) || (0 <? nonBlockingCount)
         then " (" +:+ Js.show (Z.of_nat (nonBlockingFailed ciStatus + nonBlockingCount))
              +:+ " non-blocking failed)"
         else "")
  else if 0 <? pending ciStatus then
    "⏳ " +:+ Js.show (Z.of_nat (pending ciStatus)) +:+ " check(s) pending, "
    +:+ Js.show (Z.of_nat (passed ciStatus)) +:+ " passed"
    +:+ (if 0 <? failed ciStatus
         then ", " +:+ Js.show (Z.of_nat (failed ciStatus)) +:+ " failed"
         else "")
  else if 0 <? failed ciStatus then
    "❌ " +:+ Js.show (Z.of_nat (failed ciStatus)) +:+ " check(s) failed, "
    +:+ Js.show (Z.of_nat (passed ciStatus)) +:+ " passed"
  else "".

(** The branch of the combined status display that prints. *)
Inductive headline :=
| PR_MERGED
| MERGE_QUEUE (displayState : string)
| BLOCKING_ISSUES (n : nat)
| READY_TO_MERGE
| WAITING_FOR_CI
| CI_FAILING.

Definition headline_of (mergeQueueStatus : mq_status) (blocking : nat)
    (ciStatus : ci_status) : headline :=
  if merged mergeQueueStatus then PR_MERGED
  else if inQueue mergeQueueStatus then
    MERGE_QUEUE (Js.or_default (displayState mergeQueueStatus) "In queue")
  else if 0 <? blocking then BLOCKING_ISSUES blocking
  else if allGreen ciStatus then READY_TO_MERGE
  else if 0 <? pending ciStatus then WAITING_FOR_CI
  else CI_FAILING.

Definition blockingCount (r : poll_result) : nat :=
  length (List.filter is_blocking (out_allIssues r)).

Definition nonBlockingCount (r : poll_result) : nat :=
  length (out_allIssues r) - blockingCount r.

Definition poll_ciStatusMsg (r : poll_result) : string :=
  ciStatusMsg_of (out_ciStatus r) (nonBlockingCount r).

Definition poll_headline (r : poll_result) : headline :=
  headline_of (out_mergeQueueStatus r) (blockingCount r) (out_ciStatus r).

Lemma startsWith_self (p s : string) : Js.startsWith (p +:+ s) p = true.
Proof.
  induction p as [|c p IH]; [apply startsWith_empty|].
  change (String c p +:+ s) with (String c (p +:+ s)). simpl.
  by rewrite bool_decide_eq_true_2.
Qed.

(** X17: Whenever the ready notification is sent, the display of that poll
    announces the merge, the merge queue or READY TO MERGE, never issues
    to fix, waiting CI or failing CI; and the status message is the
    "checks passed" one. *)
Theorem ready_notification_matches_display st inp :
  let r := pollForIssues env st inp in
  In ReadyToMerge (out_events r) →
  (poll_headline r = PR_MERGED
   ∨ (∃ d, poll_headline r = MERGE_QUEUE d)
   ∨ poll_headline r = READY_TO_MERGE)
  ∧ Js.startsWith (poll_ciStatusMsg r) "✅ " = true.
Proof.
  intros r Hr. apply ready_fires_iff in Hr as [Hg _].
  unfold ready_guard in Hg. apply andb_true_iff in Hg as [Hg _].
  apply andb_true_iff in Hg as [Hb Hc]. apply negb_true_iff in Hb.
  unfold poll_headline, poll_ciStatusMsg, headline_of, ciStatusMsg_of, blockingCount.
  subst r. rewrite pollForIssues_unfold. simpl.
  unfold hasBlockingIssues_of in Hb. rewrite Hb, Hc.
  split; [|apply startsWith_self].
  destruct (merged (mergeQueueStatus_of inp)); [by left|].
  destruct (inQueue (mergeQueueStatus_of inp)); [right; left; eauto|].
  by right; right.
Qed.

(** X18: A CI status check that could not be completed, or that found no
    check at all, on a pull request that is not merged, not in the queue
    and has no blocking issue, is displayed as CI FAILING with an empty
    status message. *)
Theorem unknown_ci_displayed_as_failing st inp :
  let r := pollForIssues env st inp in
  merged (out_mergeQueueStatus r) = false →
  inQueue (out_mergeQueueStatus r) = false →
  blockingCount r = 0 →
  in_st_pr inp = None ∨ in_st_checkRuns inp = None
  ∨ in_st_checkRuns inp = Some [] ∧ (in_st_statuses inp = None ∨ in_st_statuses inp = Some []) →
  poll_headline r = CI_FAILING ∧ poll_ciStatusMsg r = "".
Proof.
  intros r Hm Hq Hb Hci.
  assert (Hs : out_ciStatus r = ci_status_init).
  { subst r. rewrite pollForIssues_unfold. simpl. unfold ciStatus_of, checkCIStatus.
    destruct Hci as [->|[->|[-> [->| ->]]]]; try done;
      destruct (in_st_pr inp); try done; by destruct (in_st_checkRuns inp). }
  unfold poll_headline, poll_ciStatusMsg, headline_of. by rewrite Hm, Hq, Hb, Hs.
Qed.

Definition is_nonBlocking (i : issue) : bool := negb (is_blocking i).

Definition run_nonBlocking_failure (run : check_run) : bool :=
  run_failed run && isNonBlockingCI env (run_name run).

Definition status_nonBlocking_failure (s : commit_status) : bool :=
  status_failed s && isNonBlockingCI env (cs_context s).

Lemma length_filter_split {A} (f : A → bool) (l : list A) :
  length l - length (List.filter f l)
  = length (List.filter (λ x, negb (f x)) l).
Proof.
  induction l as [|x l IH]; simpl; [done|].
  pose proof (List.filter_length_le f l).
  destruct (f x); simpl; lia.
Qed.

Lemma run_issues_nonBlocking runs :
  length (List.filter is_nonBlocking
            (map (run_issue env) (List.filter run_failed runs)))
  = length (List.filter run_nonBlocking_failure runs).
Proof.
  unfold run_nonBlocking_failure.
  induction runs as [|run runs IH]; simpl; [done|].
  destruct (run_failed run); simpl; [|done].
  unfold is_nonBlocking at 1, is_blocking. simpl. rewrite negb_involutive.
  destruct (isNonBlockingCI env (run_name run)); simpl; by rewrite IH.
Qed.

Lemma fold_push_status_nonBlocking statuses : ∀ issues,
  length (List.filter is_nonBlocking (fold_left (push_status env) statuses issues))
  ≤ length (List.filter is_nonBlocking issues)
    + length (List.filter status_nonBlocking_failure statuses).
Proof.
  unfold status_nonBlocking_failure.
  induction statuses as [|s statuses IH]; intros issues; simpl; [lia|].
  etrans; [apply IH|]. unfold push_status.
  destruct (status_failed s); simpl; [|lia].
  destruct (isDuplicate issues s).
  - destruct (isNonBlockingCI env (cs_context s)); simpl; lia.
  - rewrite List.filter_app, length_app. simpl.
    unfold is_nonBlocking at 2, is_blocking. simpl. rewrite negb_involutive.
    destruct (isNonBlockingCI env (cs_context s)); simpl; lia.
Qed.

Lemma fold_count_run_nonBlocking runs : ∀ r,
  (∀ run, In run runs → run_failed run = true → run_status run = "completed") →
  nonBlockingFailed r + length (List.filter run_nonBlocking_failure runs)
  ≤ nonBlockingFailed (fold_left (count_run env) runs r).
Proof.
  unfold run_nonBlocking_failure.
  induction runs as [|run runs IH]; intros r Hdone; simpl; [lia|].
  etrans; [|apply IH; intros run' Hin; apply Hdone; by right].
  specialize (Hdone run (or_introl eq_refl)).
  unfold count_run.
  destruct (run_failed run) eqn:Hf; simpl.
  - rewrite (Hdone eq_refl). unfold Js.str_eqb.
    rewrite bool_decide_eq_true_2 by done. simpl.
    assert (Hp : run_passed run = false).
    { unfold run_failed, run_passed, Js.is_lit in *.
      repeat case_bool_decide; simplify_eq/=; congruence. }
    rewrite Hp. destruct (isNonBlockingCI env (run_name run)); simpl; lia.
  - repeat case_match; simpl; lia.
Qed.

Lemma fold_count_status_nonBlocking statuses : ∀ r,
  nonBlockingFailed r + length (List.filter status_nonBlocking_failure statuses)
  ≤ nonBlockingFailed (fold_left (count_status env) statuses r).
Proof.
  unfold status_nonBlocking_failure.
  induction statuses as [|s statuses IH]; intros r; simpl; [lia|].
  etrans; [|apply IH].
  unfold count_status, status_failed, Js.str_eqb.
  repeat case_bool_decide; simpl;
    try (destruct (isNonBlockingCI env (cs_context s)); simpl); try lia; congruence.
Qed.

(** X19: The non-blocking number of the status line counts twice: when the
    issue list and the aggregate read the same listings, and every
    failed, cancelled or timed-out check run is completed, each
    non-blocking issue of the list is also one of the aggregate's
    non-blocking failures, and the status line adds the two counts. *)
Theorem nonBlocking_failures_counted_twice st inp pr pr' runs statuses :
  in_ci_pr inp = Some pr → in_st_pr inp = Some pr' →
  in_ci_checkRuns inp = Some runs → in_st_checkRuns inp = Some runs →
  in_ci_statuses inp = Some statuses → in_st_statuses inp = Some statuses →
  (∀ run, In run runs → run_failed run = true → run_status run = "completed") →
  let r := pollForIssues env st inp in
  nonBlockingCount r ≤ nonBlockingFailed (out_ciStatus r)
  ∧ (allGreen (out_ciStatus r) = true → 0 < nonBlockingCount r →
     ∃ shown,
       2 * nonBlockingCount r ≤ shown
       ∧ poll_ciStatusMsg r
         = "✅ " +:+ Js.show (Z.of_nat (passed (out_ciStatus r)))
           +:+ " checks passed"
           +:+ " (" +:+ Js.show (Z.of_nat shown) +:+ " non-blocking failed)").
Proof.
  intros Hpr Hpr' Hruns Hruns' Hst Hst' Hdone r.
  assert (Hcount : nonBlockingCount r ≤ nonBlockingFailed (out_ciStatus r)).
  { subst r. unfold nonBlockingCount, blockingCount.
    rewrite pollForIssues_unfold. simpl.
    rewrite length_filter_split. fold is_nonBlocking.
    unfold allIssues_of, ciStatus_of.
    rewrite Hpr, Hpr', Hruns, Hruns', Hst, Hst'.
    rewrite !List.filter_app, !length_app.
    rewrite (filter_none is_nonBlocking (getCursorbotComments _ _)); cycle 1.
    { intros i Hi. apply review_issues_come_from_bots in Hi
        as (_ & _ & _ & _ & _ & _ & Hb).
      unfold is_nonBlocking. by rewrite Hb. }
    rewrite (filter_none is_nonBlocking (getPRIssueComments _)); cycle 1.
    { intros i Hi. by apply getPRIssueComments_In in Hi as (c & ->). }
    simpl length.
    destruct (checkCIStatus_ok_fields env pr' runs statuses) as (_ & _ & _ & _ & _).
    change (nonBlockingFailed (checkCIStatus env (Some pr') (Some runs) (Some statuses)))
      with (nonBlockingFailed
              (fold_left (count_status env) statuses
                 (fold_left (count_run env) runs ci_status_init))).
    pose proof (fold_push_status_nonBlocking statuses
                  (map (run_issue env) (List.filter run_failed runs))) as H1.
    rewrite run_issues_nonBlocking in H1.
    pose proof (fold_count_run_nonBlocking runs ci_status_init Hdone) as H2.
    pose proof (fold_count_status_nonBlocking statuses
                  (fold_left (count_run env) runs ci_status_init)) as H3.
    simpl in H2. lia. }
  split; [exact Hcount|]. intros Hg Hpos.
  exists (nonBlockingFailed (out_ciStatus r) + nonBlockingCount r).
  split; [lia|].
  unfold poll_ciStatusMsg, ciStatusMsg_of. rewrite Hg.
  apply Nat.ltb_lt in Hpos. by rewrite Hpos, orb_true_r.
Qed.

(** X20: A pull request that never shows a blocking issue never gets the
    ready notification, however green its CI: over a run that starts
    with [previouslyHadBlockingIssues] unset and whose polls find no
    blocking issue, the notification is not sent on any poll. *)
Theorem always_clean_never_ready inputs : ∀ st,
  previouslyHadBlockingIssues st = false →
  (∀ inp, In inp inputs → hasBlockingIssues_of env inp = false) →
  ∀ r, In r (run env st inputs) → ¬ In ReadyToMerge (out_events r).
Proof.
  induction inputs as [|inp inputs IH]; intros st Hprev Hclean r; [intros []|].
  simpl. intros [<-|Hr].
  - rewrite ready_fires_iff. intros [_ Hp]. congruence.
  - revert Hr. apply IH.
    + rewrite pollForIssues_unfold. simpl. apply Hclean. by left.
    + intros inp' Hin. apply Hclean. by right.
Qed.

(** X21: No issue is missed: the first poll of a run that reports an id which
    was not in the seen set at the start lists that issue as new. *)
Theorem first_report_is_new inputs : ∀ st k r i,
  run env st inputs !! k = Some r →
  In i (out_allIssues r) →
  i_id i ∉ seenIssueIds st →
  (∀ j r' i', j < k → run env st inputs !! j = Some r' →
              In i' (out_allIssues r') → i_id i' ≠ i_id i) →
  In i (out_newIssues r).
Proof.
  induction inputs as [|inp inputs IH]; intros st k r i Hk Hi Hst Hfirst; [done|].
  destruct k as [|k]; simpl in Hk.
  - injection Hk as <-. rewrite pollForIssues_unfold in Hi |- *. simpl in *.
    apply filter_In. split; [done|].
    unfold unseen. by apply negb_true_iff, bool_decide_eq_false.
  - apply (IH (out_state (pollForIssues env st inp)) k r i Hk Hi).
    + rewrite poll_seen, elem_of_union. intros [Hin|Hin]; [done|].
      apply elem_of_list_to_set, list_elem_of_In, in_map_iff in Hin
        as (i' & Heq & Hi').
      apply (Hfirst 0 (pollForIssues env st inp) i'); [lia|done| |done].
      by rewrite pollForIssues_unfold.
    + intros j r' i' Hj Hr'. apply (Hfirst (S j) r' i'); [lia|done].
Qed.

End Coverage.

(** ** Concrete instances of the further properties *)

Definition ex_info : pr_info :=
  {| owner := "joinhandshake"; repo := "joinera"; number := 8211 |}.

(** A failing notification job, non-blocking by the default patterns. *)
Definition ex_slack_run : check_run :=
  ex_run 5 "Slack Notify" "completed" (Some "failure")
    (Some "https://ci.example/slack").

(** A poll during which the pull request cannot be fetched for the
    merge-queue check. *)
Definition ex_poll_queue_fetch_failed : poll_input :=
  {| in_reviewThreads := Some [];
     in_reviewComments := Some [];
     in_issueComments := Some [];
     in_ci_pr := Some ex_pr;
     in_ci_checkRuns := Some [ex_unit_run_ok];
     in_ci_statuses := Some [];
     in_mq_pr := None;
     in_mq_entry := None;
     in_st_pr := Some ex_pr;
     in_st_checkRuns := Some [ex_unit_run_ok];
     in_st_statuses := Some [] |}.

Lemma parsePRReference_getPRUrl_witness :
  getPRUrl (Some ex_info) = Some "https://github.com/joinhandshake/joinera/pull/8211"
  ∧ getPRUrl (Some ex_info) ≫= parsePRReference = Some ex_info.
Proof.
  split; [reflexivity|].
  apply (parsePRReference_getPRUrl ex_info);
    [discriminate|reflexivity|discriminate|reflexivity|
     unfold Re.MAX_SAFE_INTEGER; simpl; lia].
Defined.

Lemma parsePRReference_short_witness :
  parsePRReference ("joinhandshake" +:+ "/" +:+ "joinera" +:+ "#" +:+ Js.show 8211)
  = Some ex_info.
Proof.
  apply (parsePRReference_short "joinhandshake" "joinera" 8211);
    [discriminate|reflexivity|discriminate|reflexivity|reflexivity|
     unfold Re.MAX_SAFE_INTEGER; lia].
Defined.

Lemma parsePRReference_needs_slash_witness :
  Re.lacks "/" "#123" = true ∧ parsePRReference "#123" = None.
Proof.
  split; [reflexivity|]. apply (parsePRReference_needs_slash "#123"). reflexivity.
Defined.

Lemma detail_reads_watcher_ids_witness :
  (0 ≤ rc_id ex_rest_comment)%Z
  ∧ parseIssueId (i_id (rest_issue ex_rest_comment))
    = Some (IdReview, Js.show (rc_id ex_rest_comment)).
Proof.
  assert (H : (0 ≤ rc_id ex_rest_comment)%Z) by (simpl; lia).
  split; [exact H|].
  exact (proj1 (proj2 (detail_reads_watcher_ids None)) ex_rest_comment H).
Defined.

Lemma isNonBlockingCI_env_and_case_witness :
  isNonBlockingCI None (Some "Slack Notify") = true
  ∧ isNonBlockingCI (Some "flaky") (Some "Slack Notify") = true.
Proof.
  assert (H : isNonBlockingCI None (Some "Slack Notify") = true) by reflexivity.
  split; [exact H|].
  exact (proj1 (proj2 (proj2 (isNonBlockingCI_env_and_case (Some "flaky"))))
           (Some "Slack Notify") H).
Defined.

Lemma empty_pattern_matches_every_job_witness :
  In EmptyString (map Js.trim (Js.split "," "flaky,"))
  ∧ isNonBlockingCI (Some "flaky,") (Some "build") = true.
Proof.
  assert (H : In EmptyString (map Js.trim (Js.split "," "flaky,")))
    by (right; left; reflexivity).
  split; [exact H|].
  apply (empty_pattern_matches_every_job "flaky," "build");
    [discriminate|exact H|discriminate].
Defined.

Lemma isReviewBot_iff_witness :
  Js.includes (Js.toLowerCase "chatgpt-codex-connector[bot]") "codex" = true
  ∧ isReviewBot (Some "chatgpt-codex-connector[bot]") = true.
Proof.
  assert (H : Js.includes (Js.toLowerCase "chatgpt-codex-connector[bot]") "codex"
              = true) by reflexivity.
  split; [exact H|].
  exact (proj2 (isReviewBot_iff "chatgpt-codex-connector[bot]") (or_intror H)).
Defined.

Lemma review_issues_come_from_bots_witness :
  ∃ login,
    i_author (rest_issue ex_rest_comment) = Some login
    ∧ isReviewBot (Some login) = true
    ∧ login ≠ "bot"
    ∧ i_type (rest_issue ex_rest_comment) = review_bot
    ∧ i_botType (rest_issue ex_rest_comment) = Some (botType_of login)
    ∧ is_blocking (rest_issue ex_rest_comment) = true.
Proof.
  apply (review_issues_come_from_bots None (Some [ex_rest_comment])).
  left. reflexivity.
Defined.

Lemma getCIFailures_shape_witness :
  ∃ kept,
    getCIFailures None (Some ex_pr) (Some [ex_lint_run])
      (Some [ex_lint_status; ex_build_status])
    = map (run_issue None) (List.filter run_failed [ex_lint_run])
      ++ map (status_issue None) kept
    ∧ sublist kept (List.filter status_failed [ex_lint_status; ex_build_status])
    ∧ ∀ before s after, kept = before ++ s :: after →
        isDuplicate (map (run_issue None) (List.filter run_failed [ex_lint_run])
                     ++ map (status_issue None) before) s = false.
Proof.
  exact (getCIFailures_shape None ex_pr [ex_lint_run]
           [ex_lint_status; ex_build_status]).
Defined.

Lemma blocking_ci_issue_not_green_witness :
  In (run_issue None ex_lint_run)
     (getCIFailures None (Some ex_pr) (Some [ex_lint_run; ex_unit_run_ok]) (Some []))
  ∧ is_blocking (run_issue None ex_lint_run) = true
  ∧ allGreen (checkCIStatus None (Some ex_pr)
                (Some [ex_lint_run; ex_unit_run_ok]) (Some [])) = false.
Proof.
  assert (Hi : In (run_issue None ex_lint_run)
                 (getCIFailures None (Some ex_pr)
                    (Some [ex_lint_run; ex_unit_run_ok]) (Some [])))
    by (left; reflexivity).
  split; [exact Hi|]. split; [reflexivity|].
  exact (blocking_ci_issue_not_green None ex_pr ex_pr
           [ex_lint_run; ex_unit_run_ok] [] (run_issue None ex_lint_run)
           Hi eq_refl).
Defined.

Lemma unseen_blocking_issue_is_notified_witness :
  ∃ issues,
    List.filter is_new_issues_event
      (out_events (pollForIssues None initial_state ex_poll_red))
    = [NewIssues issues]
    ∧ In (run_issue None ex_lint_run) issues.
Proof.
  apply (unseen_blocking_issue_is_notified None initial_state ex_poll_red
           (run_issue None ex_lint_run)).
  - right; left; reflexivity.
  - apply not_elem_of_empty.
  - right; reflexivity.
Defined.

Lemma ready_at_most_once_between_new_issues_witness :
  let st := out_state (pollForIssues None initial_state ex_poll_red) in
  sum_list (map count_ready (run None st [ex_poll_green; ex_poll_green])) ≤ 1.
Proof.
  intros st.
  apply (ready_at_most_once_between_new_issues None [ex_poll_green; ex_poll_green] st).
  intros r [<-|[<-|[]]]; vm_compute; reflexivity.
Defined.

Lemma failed_queue_fetch_reads_as_removed_witness :
  let st := out_state (pollForIssues None initial_state
                         (ex_poll [] [ex_unit_run_ok] [] false (ex_entry "QUEUED" 1))) in
  lastMergeQueueState st = Some "QUEUED"
  ∧ List.filter is_queue_event
      (out_events (pollForIssues None st ex_poll_queue_fetch_failed))
    = [QueueTransition REMOVED "Check the PR - may need to re-queue"].
Proof.
  intros st. split; [reflexivity|].
  apply (failed_queue_fetch_reads_as_removed None st ex_poll_queue_fetch_failed);
    [reflexivity|left; reflexivity].
Defined.

Lemma queue_notifications_per_poll_witness :
  let st := out_state (pollForIssues None initial_state
                         (ex_poll [] [ex_unit_run_ok] [] false
                            (ex_entry "AWAITING_CHECKS" 2))) in
  let r := pollForIssues None st
             (ex_poll [] [ex_unit_run_ok] [] false (ex_entry "MERGEABLE" 0)) in
  Js.truthy (lastMergeQueueState st) = true
  ∧ Js.truthy (lastMergeQueueState (out_state r)) = true
  ∧ List.filter is_queue_event (out_events r) = [].
Proof.
  intros st r. split; [reflexivity|]. split; [reflexivity|].
  apply (proj1 (proj2 (proj2
           (queue_notifications_per_poll None st
              (ex_poll [] [ex_unit_run_ok] [] false (ex_entry "MERGEABLE" 0))))));
    [reflexivity|reflexivity|discriminate].
Defined.

Lemma queued_notification_never_sent_witness :
  ¬ In (QueueTransition QUEUED "Added to merge queue Position: #2")
      (out_events (pollForIssues None initial_state
         (ex_poll [] [ex_unit_run_ok] [] false (ex_entry "AWAITING_CHECKS" 2)))).
Proof.
  apply (queued_notification_never_sent None ex_queue_trace).
  - intros inp e Hin He. unfold ex_queue_trace in Hin. simpl in Hin.
    repeat (destruct Hin as [<-|Hin];
            [simpl in He; unfold ex_entry in He; by simplify_eq/=|]).
    destruct Hin.
  - left. reflexivity.
Defined.

Lemma ready_notification_matches_display_witness :
  let st := out_state (pollForIssues None initial_state ex_poll_red) in
  let r := pollForIssues None st ex_poll_green in
  In ReadyToMerge (out_events r)
  ∧ (poll_headline r = PR_MERGED
     ∨ (∃ d, poll_headline r = MERGE_QUEUE d)
     ∨ poll_headline r = READY_TO_MERGE)
  ∧ Js.startsWith (poll_ciStatusMsg r) "✅ " = true.
Proof.
  intros st r.
  assert (H : In ReadyToMerge (out_events r)) by (left; reflexivity).
  split; [exact H|].
  exact (ready_notification_matches_display None st ex_poll_green H).
Defined.

Lemma unknown_ci_displayed_as_failing_witness :
  let r := pollForIssues None initial_state (ex_poll [] [] [] false None) in
  poll_headline r = CI_FAILING ∧ poll_ciStatusMsg r = "".
Proof.
  apply (unknown_ci_displayed_as_failing None initial_state
           (ex_poll [] [] [] false None));
    [reflexivity|reflexivity|reflexivity|].
  right; right. split; [reflexivity|right; reflexivity].
Defined.

Lemma nonBlocking_failures_counted_twice_witness :
  let r := pollForIssues None initial_state
             (ex_poll [] [ex_slack_run; ex_unit_run_ok] [] false None) in
  nonBlockingCount r = 1
  ∧ nonBlockingCount r ≤ nonBlockingFailed (out_ciStatus r)
  ∧ poll_ciStatusMsg r = "✅ 1 checks passed (2 non-blocking failed)".
Proof.
  intros r. split; [reflexivity|].
  destruct (nonBlocking_failures_counted_twice None initial_state
              (ex_poll [] [ex_slack_run; ex_unit_run_ok] [] false None)
              ex_pr ex_pr [ex_slack_run; ex_unit_run_ok] [])
    as [Hle _]; try reflexivity.
  - intros run [<-|[<-|[]]] _; reflexivity.
  - split; [exact Hle|]. vm_compute. reflexivity.
Defined.

Lemma always_clean_never_ready_witness :
  ¬ In ReadyToMerge
      (out_events (pollForIssues None initial_state ex_poll_green)).
Proof.
  apply (always_clean_never_ready None [ex_poll_green] initial_state);
    [reflexivity| |left; reflexivity].
  intros inp [<-|[]]. reflexivity.
Defined.

Lemma first_report_is_new_witness :
  let r := pollForIssues None
             (out_state (pollForIssues None initial_state ex_poll_green))
             ex_poll_red in
  In (run_issue None ex_lint_run) (out_newIssues r).
Proof.
  intros r.
  apply (first_report_is_new None [ex_poll_green; ex_poll_red] initial_state 1 r).
  - reflexivity.
  - right; left; reflexivity.
  - apply not_elem_of_empty.
  - intros j r' i' Hj Hr' Hi'. destruct j as [|j]; [|lia].
    injection Hr' as <-. vm_compute in Hi'. destruct Hi'.
Defined.
